(** * powerspec.py: averaged power spectrum and geometric re-binning

    A shallow embedding of [powerspec.py] (Python 2.7).  Python floats are
    modelled in exact arithmetic: rationals [Q] for the pipeline and the
    re-binner (so that every definition computes), real numbers [R] for the
    discrete Fourier transform of one segment.  Python exceptions and
    the exhaustion of loop fuel are explicit outcomes.  A division of Python
    floats by zero raises; a division of numpy scalars by zero gives [inf] or
    [nan] without raising, for which the total division of [Q] stands in: the
    statements about such quotients assume non-zero divisors.  The library
    functions [math.sqrt] and [fftpack.fft] are parameters of the pipeline;
    [np.fft.fftfreq] follows numpy's definition.  Reading the FITS file and
    writing the two tables are not modelled: [main] takes the table of rows
    and returns what it hands to [output]. *)

From Stdlib Require Import ZArith QArith Qround Qpower List Lia Bool.
From Stdlib Require Import Reals.
Import ListNotations.

Local Open Scope Z_scope.

(** ** Outcomes of a Python computation *)

Inductive exn : Type :=
| AssertionError
| IndexError
| ZeroDivisionError
| OverflowError
| ValueError
| UnboundLocalError.

Inductive outcome (A : Type) : Type :=
| Ok (a : A)
| Raise (e : exn)
| OutOfFuel.

Arguments Ok {A} a.
Arguments Raise {A} e.
Arguments OutOfFuel {A}.

Definition bind {A B : Type} (m : outcome A) (k : A -> outcome B) : outcome B :=
  match m with
  | Ok a => k a
  | Raise e => Raise e
  | OutOfFuel => OutOfFuel
  end.

Notation "x <- m ;; k" := (bind m (fun x => k))
  (at level 61, m at next level, right associativity).
Notation "' pat <- m ;; k" := (bind m (fun x => match x with pat => k end))
  (at level 61, pat pattern, m at next level, right associativity).

Definition py_assert (b : bool) : outcome unit :=
  if b then Ok tt else Raise AssertionError.

(** ** Python built-ins used by the program *)

(** [l[i]]: a negative index counts from the end; anything outside
    [-len, len) raises [IndexError]. *)
Definition getitem {A : Type} (l : list A) (i : Z) : outcome A :=
  let len := Z.of_nat (length l) in
  let i' := if i <? 0 then i + len else i in
  if (0 <=? i') && (i' <? len) then
    match nth_error l (Z.to_nat i') with
    | Some x => Ok x
    | None => Raise IndexError
    end
  else Raise IndexError.

(** [range(a, b)]: empty when [b <= a]. *)
Definition py_range (a b : Z) : list Z :=
  map (fun k => a + Z.of_nat k) (seq 0 (Z.to_nat (b - a))).

(** [l[i:j]]: negative bounds count from the end, both are clipped. *)
Definition clip_index (len i : Z) : Z :=
  let i' := if i <? 0 then i + len else i in
  Z.max 0 (Z.min len i').

Definition py_slice {A : Type} (l : list A) (i j : Z) : list A :=
  let len := Z.of_nat (length l) in
  let a := clip_index len i in
  let b := clip_index len j in
  firstn (Z.to_nat (b - a)) (skipn (Z.to_nat a) l).

(** [int(x)] on a float: truncation towards zero. *)
Definition py_int (x : Q) : Z :=
  if Qle_bool 0 x then Qfloor x else Qceiling x.

(** [round(x)] of Python 2: to the nearest integer, halves away from zero. *)
Definition py_round (x : Q) : Z :=
  if Qle_bool 0 x then Qfloor (x + (1 # 2)) else Qceiling (x - (1 # 2)).

(** [a / b] on Python floats: a zero divisor raises. *)
Definition float_div (a b : Q) : outcome Q :=
  if Qeq_bool b 0 then Raise ZeroDivisionError else Ok (a / b)%Q.

(** A list comprehension whose body may raise. *)
Fixpoint map_outcome {A B : Type} (f : A -> outcome B) (l : list A)
  : outcome (list B) :=
  match l with
  | [] => Ok []
  | x :: r => y <- f x ;; ys <- map_outcome f r ;; Ok (y :: ys)
  end.

(** ** power_of_two *)

(** The [while x < n and x < 2147483648: x *= 2] loop. *)
Fixpoint power_of_two_loop (fuel : nat) (x n : Z) : outcome Z :=
  if (x <? n) && (x <? 2147483648) then
    match fuel with
    | O => OutOfFuel
    | S fuel' => power_of_two_loop fuel' (x * 2) n
    end
  else Ok x.

Definition power_of_two_fuel : nat := 32.

Definition power_of_two (num : Z) : outcome bool :=
  let n := num in
  let x := 2 in
  if n =? 1 then Ok true
  else
    x <- power_of_two_loop power_of_two_fuel x n ;;
    Ok (n =? x).

(** ** geometric_rebinning *)

Section GeometricRebinning.

(** [math.sqrt], a library function, is a parameter of the model. *)
Variable math_sqrt : Q -> Q.

Variables rms_power_avg rms_err_power freq : list Q.
Variable rebin_const : Q.
Variable length_of_list : Z.

Record rebin_state : Type := mk_rebin_state {
  rebinned_rms_power : list Q;
  rebinned_freq : list Q;
  err_rebinned_power : list Q;
  real_index : Q;
  current_m : Z;
  prev_m : Z
}.

Definition rebin_init : rebin_state :=
  {| rebinned_rms_power := [];
     rebinned_freq := [];
     err_rebinned_power := [];
     real_index := 1;
     current_m := 1;
     prev_m := 0 |}.

(** The inner [for k in range(prev_m, current_m)] loop. *)
Fixpoint bin_sums (ks : list Z) (bin_power err_bin_power2 : Q)
  : outcome (Q * Q) :=
  match ks with
  | [] => Ok (bin_power, err_bin_power2)
  | k :: ks' =>
      p <- getitem rms_power_avg k ;;
      e <- getitem rms_err_power k ;;
      bin_sums ks' (bin_power + p)%Q (err_bin_power2 + e ^ 2)%Q
  end.

(** The body of the [while] loop up to the three [append]s: the entry
    [(bin_freq, bin_power, error)] computed for the group
    [range(prev_m, current_m)]. *)
Definition rebin_entry (prev_m current_m : Z) : outcome (Q * Q * Q) :=
  '(bin_power, err_bin_power2) <-
     bin_sums (py_range prev_m current_m) 0%Q 0%Q ;;
  let bin_range := Z.abs (current_m - prev_m) in
  bin_power <- float_div bin_power (inject_Z bin_range) ;;
  f_cur <- getitem freq current_m ;;
  f_prev <- getitem freq prev_m ;;
  let bin_freq := ((f_cur - f_prev) / inject_Z bin_range + f_prev)%Q in
  '(bin_power, bin_freq) <-
     (if bin_range =? 1 then
        p <- getitem rms_power_avg prev_m ;;
        f <- getitem freq prev_m ;;
        Ok (p, f)
      else Ok (bin_power, bin_freq)) ;;
  Ok (bin_freq, bin_power,
      (math_sqrt err_bin_power2 / inject_Z bin_range)%Q).

(** One iteration of the [while current_m < length_of_list] loop: the
    entry is appended, then the indices advance. *)
Definition rebin_step (st : rebin_state) : outcome rebin_state :=
  '(bin_freq, bin_power, bin_err) <-
     rebin_entry (prev_m st) (current_m st) ;;
  let real_index' := (real_index st * rebin_const)%Q in
  let int_index := py_round real_index' in
  Ok {| rebinned_rms_power := rebinned_rms_power st ++ [bin_power];
        rebinned_freq := rebinned_freq st ++ [bin_freq];
        err_rebinned_power := err_rebinned_power st ++ [bin_err];
        real_index := real_index';
        current_m := current_m st + int_index;
        prev_m := current_m st |}.

Fixpoint rebin_loop (fuel : nat) (st : rebin_state) : outcome rebin_state :=
  if current_m st <? length_of_list then
    match fuel with
    | O => OutOfFuel
    | S fuel' => st' <- rebin_step st ;; rebin_loop fuel' st'
    end
  else Ok st.

Definition geometric_rebinning (fuel : nat)
  : outcome (list Q * list Q * list Q) :=
  st <- rebin_loop fuel rebin_init ;;
  Ok (rebinned_freq st, rebinned_rms_power st, err_rebinned_power st).

(** The index bookkeeping of the loop on its own: the groups
    [(prev_m, current_m)] in the order the loop visits them. *)
Fixpoint group_trace (fuel : nat) (real : Q) (cur prev : Z) : list (Z * Z) :=
  if cur <? length_of_list then
    match fuel with
    | O => []
    | S fuel' =>
        let real' := (real * rebin_const)%Q in
        (prev, cur) :: group_trace fuel' real' (cur + py_round real') cur
    end
  else [].

Definition rebin_groups (fuel : nat) : list (Z * Z) :=
  group_trace fuel 1%Q 1 0.

(** The entries computed for a list of groups. *)
Definition group_entries (gs : list (Z * Z)) : outcome (list (Q * Q * Q)) :=
  map_outcome (fun g => rebin_entry (fst g) (snd g)) gs.

End GeometricRebinning.

(** Consecutive groups, the first one starting at [start]: every group is
    non-empty and begins where the one before it ended. *)
Fixpoint chained (start : Z) (gs : list (Z * Z)) : Prop :=
  match gs with
  | [] => True
  | (p, q) :: rest => p = start /\ p < q /\ chained q rest
  end.

(** ** main *)

(** [np.mean]. *)
Definition np_mean (l : list Q) : Q :=
  (fold_left Qplus l 0 / inject_Z (Z.of_nat (length l)))%Q.

(** [np.fft.fftfreq(n)] with the default spacing [d = 1.0], after numpy's
    definition: the integers [0 .. (n-1)//2] followed by [-(n//2) .. -1],
    each multiplied by [1.0 / (n * d)]. *)
Definition fftfreq (n : Z) : outcome (list Q) :=
  val <- float_div 1 (inject_Z n * 1) ;;
  let N := (n - 1) / 2 + 1 in
  let p1 := py_range 0 N in
  let p2 := py_range (- (n / 2)) 0 in
  Ok (map (fun k => (inject_Z k * val)%Q) (p1 ++ p2)).

Definition Qlt_bool (x y : Q) : bool := negb (Qle_bool y x).

(** [max(l)]: the first of the largest elements; [ValueError] on []. *)
Definition py_max (l : list Q) : outcome Q :=
  match l with
  | [] => Raise ValueError
  | x :: r => Ok (fold_left (fun m y => if Qlt_bool m y then y else m) r x)
  end.

(** [l.index(v)]: the first position holding a value equal to [v]. *)
Fixpoint list_index (l : list Q) (v : Q) : outcome Z :=
  match l with
  | [] => Raise ValueError
  | x :: r => if Qeq_bool x v then Ok 0 else k <- list_index r v ;; Ok (k + 1)
  end.

(** [int(1.0 / dt)] on a numpy float: a zero [dt] gives [inf], which [int]
    refuses. *)
Definition int_inverse (dt : Q) : outcome Z :=
  if Qeq_bool dt 0 then Raise OverflowError else Ok (py_int (1 / dt)).

(** The three "idiot checks" at the top of [main]. *)
Definition idiot_checks (num_seconds : Z) (rebin_const : Q) : outcome unit :=
  _ <- py_assert (0 <? num_seconds) ;;
  _ <- py_assert (Qle_bool 1 rebin_const) ;;
  p <- power_of_two num_seconds ;;
  py_assert p.

(** Frequencies in Hz and the index of the largest one. *)
Definition freq_hz (n scale : Z) : outcome (list Q) :=
  sample_freq <- fftfreq n ;;
  Ok (map (fun x => (x * inject_Z scale)%Q) sample_freq).

Definition max_index_of (freq : list Q) : outcome Z :=
  m <- py_max freq ;;
  list_index freq m.

(** The normalisations, as the three list comprehensions of [main]. *)
Definition leahy_normalization (dt : Q) (num_seconds : Z) (mean_rate_whole : Q)
    (power_avg : list Q) : list Q :=
  map (fun x => (2 * x * dt / ((1 / dt) * inject_Z num_seconds)
                 / mean_rate_whole)%Q) power_avg.

Definition rms_normalization (dt : Q) (num_seconds : Z) (mean_rate_whole : Q)
    (power_avg : list Q) : list Q :=
  map (fun x => ((2 * x * dt / ((1 / dt) * inject_Z num_seconds)
                  / mean_rate_whole ^ 2) - (2 / mean_rate_whole))%Q) power_avg.

Definition rms_err_normalization (dt : Q) (num_seconds : Z)
    (mean_rate_whole : Q) (err_power : list Q) : list Q :=
  map (fun x => (2 * x * dt / ((1 / dt) * inject_Z num_seconds)
                 / mean_rate_whole ^ 2)%Q) err_power.

Section Main.

Variable math_sqrt : Q -> Q.

(** [np.absolute(fftpack.fft(x))**2], the squared magnitudes of the discrete
    Fourier transform of [x]: library code, a parameter here (its bin 0 is
    treated in exact real arithmetic in [Periodogram] below). *)
Variable fft_power : list Q -> list Q.

Record segment_state : Type := mk_segment_state {
  power_avg : list Q;
  mean_rate_whole : Q;
  seg_i : Z;
  seg_j : Z;
  num_segments : Z;
  rate : option (list Q)
}.

(** The [while j < len(fits_data.field(1))] loop; [rates] is column 1. *)
Fixpoint segment_loop (rates : list Q) (n_bins : Z) (fuel : nat)
    (st : segment_state) : outcome segment_state :=
  if seg_j st <? Z.of_nat (length rates) then
    match fuel with
    | O => OutOfFuel
    | S fuel' =>
        let rate := py_slice rates (seg_i st) (seg_j st) in
        let mean_rate_segment := np_mean rate in
        let rate_sub_mean := map (fun x => (x - mean_rate_segment)%Q) rate in
        let power_segment := fft_power rate_sub_mean in
        segment_loop rates n_bins fuel'
          {| power_avg :=
               map (fun ab => (fst ab + snd ab)%Q)
                   (combine power_segment (power_avg st));
             mean_rate_whole := (mean_rate_whole st + mean_rate_segment)%Q;
             seg_i := seg_j st;
             seg_j := seg_j st + n_bins;
             num_segments := num_segments st + 1;
             rate := Some rate |}
    end
  else Ok st.

Definition segment_init (n_bins : Z) : segment_state :=
  {| power_avg := map (fun _ => 0%Q) (py_range 0 n_bins);
     mean_rate_whole := 0;
     seg_i := 0;
     seg_j := n_bins;
     num_segments := 0;
     rate := None |}.

(** What [main] hands to [output]. *)
Record spectra : Type := mk_spectra {
  out_dt : Q;
  out_n_bins : Z;
  out_num_segments : Z;
  out_mean_rate_whole : Q;
  out_freq : list Q;
  out_rms_power_avg : list Q;
  out_rms_err_power : list Q;
  out_rebinned_freq : list Q;
  out_rebinned_rms_power : list Q;
  out_err_rebinned_power : list Q
}.

(** [fits_data] is the table of (time, rate) rows. *)
Definition main (fuel : nat) (fits_data : list (Q * Q)) (num_seconds : Z)
    (rebin_const : Q) : outcome spectra :=
  _ <- idiot_checks num_seconds rebin_const ;;
  row1 <- getitem fits_data 1 ;;
  row0 <- getitem fits_data 0 ;;
  let dt := (fst row1 - fst row0)%Q in
  inv <- int_inverse dt ;;
  let n_bins := num_seconds * inv in
  let rates := map snd fits_data in
  st <- segment_loop rates n_bins fuel (segment_init n_bins) ;;
  power_avg <-
    map_outcome (fun x => float_div x (inject_Z (num_segments st)))
                (power_avg st) ;;
  mean_rate_whole <-
    float_div (mean_rate_whole st) (inject_Z (num_segments st)) ;;
  rate <- match rate st with
          | Some r => Ok r
          | None => Raise UnboundLocalError
          end ;;
  freq <- freq_hz (Z.of_nat (length rate)) inv ;;
  max_index <- max_index_of freq ;;
  let freq := py_slice freq 0 (max_index + 1) in
  let power_avg := py_slice power_avg 0 (max_index + 1) in
  let err_power :=
    map (fun x =>
           (x / math_sqrt (inject_Z (num_segments st)
                           * inject_Z (Z.of_nat (length power_avg))))%Q)
        power_avg in
  let leahy_power_avg :=
    leahy_normalization dt num_seconds mean_rate_whole power_avg in
  let rms_power_avg :=
    rms_normalization dt num_seconds mean_rate_whole power_avg in
  let rms_err_power :=
    rms_err_normalization dt num_seconds mean_rate_whole err_power in
  let length_of_list := Z.of_nat (length power_avg) in
  '(rebinned_freq, rebinned_rms_power, err_rebinned_power) <-
     geometric_rebinning math_sqrt rms_power_avg rms_err_power freq
       rebin_const length_of_list fuel ;;
  Ok {| out_dt := dt;
        out_n_bins := n_bins;
        out_num_segments := num_segments st;
        out_mean_rate_whole := mean_rate_whole;
        out_freq := freq;
        out_rms_power_avg := rms_power_avg;
        out_rms_err_power := rms_err_power;
        out_rebinned_freq := rebinned_freq;
        out_rebinned_rms_power := rebinned_rms_power;
        out_err_rebinned_power := err_rebinned_power |}.

End Main.

(** The segment length that passes: positive and one of [1, 2, ..., 2^31]. *)
Definition accepted_seconds (num_seconds : Z) : Prop :=
  0 < num_seconds /\ exists k, 0 <= k <= 31 /\ num_seconds = 2 ^ k.

(** The frequency, in Hz, that [main] gives to bin number [k]. *)
Definition bin_freq_hz (n scale k : Z) : Q :=
  (inject_Z k * (1 / (inject_Z n * 1)) * inject_Z scale)%Q.

(** The number of windows the segment loop still walks from a state. *)
Definition windows_left (rates : list Q) (n_bins : Z) (st : segment_state)
  : Z :=
  Z.max 0 ((Z.of_nat (length rates) - seg_j st + n_bins - 1) / n_bins).

(** ** output *)

(** A row of a table: the three numbers its format string receives.  The
    text of the rows and of the header lines is not modelled. *)
Definition row : Type := (Q * Q * Q)%type.

(** The body of [for k in range(0, len(freq))]: a row is written when
    [freq[k] >= 0]. *)
Definition table_row (freq power err : list Q) (k : Z) : outcome (option row) :=
  f <- getitem freq k ;;
  if Qle_bool 0 f then
    f <- getitem freq k ;;
    p <- getitem power k ;;
    e <- getitem err k ;;
    Ok (Some (f, p, e))
  else Ok None.

(** The loop over the rows: the file so far, and how the loop ended. *)
Fixpoint write_rows (freq power err : list Q) (ks : list Z) (file : list row)
  : list row * outcome unit :=
  match ks with
  | [] => (file, Ok tt)
  | k :: ks' =>
      match table_row freq power err k with
      | Ok (Some r) => write_rows freq power err ks' (file ++ [r])
      | Ok None => write_rows freq power err ks' file
      | Raise x => (file, Raise x)
      | OutOfFuel => (file, OutOfFuel)
      end
  end.

Definition write_table (freq power err : list Q) : list row * outcome unit :=
  write_rows freq power err (py_range 0 (Z.of_nat (length freq))) [].




(** What every state of the segment loop satisfies. *)
Definition segment_invariant (rates : list Q) (n_bins : Z)
    (st : segment_state) : Prop :=
  0 <= num_segments st /\
  seg_i st = num_segments st * n_bins /\
  seg_j st = seg_i st + n_bins /\
  seg_i st < Z.max 1 (Z.of_nat (length rates)) /\
  length (power_avg st) = Z.to_nat n_bins /\
  rate st = if num_segments st =? 0 then None
            else Some (py_slice rates (seg_i st - n_bins) (seg_i st)).

(** The rows of the bins [ks] of three columns. *)
Definition rows_of (freq power err : list Q) (ks : list Z) : list row :=
  map (fun k => (nth (Z.to_nat k) freq 0%Q, nth (Z.to_nat k) power 0%Q,
                 nth (Z.to_nat k) err 0%Q)) ks.

(** ** The periodogram of one segment, in exact real arithmetic *)

Module Periodogram.

Local Open Scope R_scope.

Definition Rsum (l : list R) : R := fold_right Rplus 0 l.

(** [np.mean(rate)]. *)
Definition np_mean (rate : list R) : R := Rsum rate / INR (length rate).

(** [[x - mean_rate_segment for x in rate]]. *)
Definition rate_sub_mean (rate : list R) : list R :=
  let mean_rate_segment := np_mean rate in
  map (fun x => x - mean_rate_segment) rate.

(** Bin [k] of [fftpack.fft(x)], after its definition
    [y[k] = sum_j x[j] * exp(-2*pi*i*j*k/n)], as (real, imaginary). *)
Definition fft_bin (x : list R) (k : nat) : R * R :=
  let n := INR (length x) in
  let terms := combine (seq 0 (length x)) x in
  (Rsum (map (fun jx => snd jx * cos (2 * PI * INR (fst jx) * INR k / n))
             terms),
   Rsum (map (fun jx => - (snd jx * sin (2 * PI * INR (fst jx) * INR k / n)))
             terms)).

Definition fft (x : list R) : list (R * R) :=
  map (fft_bin x) (seq 0 (length x)).

(** [np.absolute] of a complex number. *)
Definition absolute (z : R * R) : R := sqrt (fst z * fst z + snd z * snd z).

(** [np.absolute(fft_data)**2] of the mean-subtracted segment. *)
Definition power_segment (rate : list R) : list R :=
  map (fun z => absolute z ^ 2) (fft (rate_sub_mean rate)).

End Periodogram.

(** ** Running the model *)

(** A computable stand-in for [math.sqrt], exact on the squares of
    rationals, to run the model on concrete inputs. *)
Definition exact_sqrt (x : Q) : Q :=
  Z.sqrt (Qnum x * Zpos (Qden x)) # Qden x.

(** Three runs of the re-binner and of [power_of_two]. *)
Example rebin_groups_run : rebin_groups (3 # 2) 5 5 = [(0, 1); (1, 3)].
Proof. reflexivity. Qed.

Example geometric_rebinning_run :
  geometric_rebinning exact_sqrt [10; 20; 30; 40; 50]%Q [3; 4; 3; 4; 0]%Q
    [0; 1; 2; 3; 4]%Q (3 # 2) 5 5
  = Ok ([0; 4 # 2], [10; 50 # 2], [3; 5 # 2])%Q.
Proof. reflexivity. Qed.

Example power_of_two_run :
  power_of_two 8 = Ok true /\ power_of_two 6 = Ok false /\
  power_of_two (2 ^ 31) = Ok true /\ power_of_two (2 ^ 32) = Ok false.
Proof. repeat split. Qed.

(** * Properties *)

(** ** Python built-ins *)

Lemma getitem_in_range {A : Type} (l : list A) (i : Z) :
  0 <= i < Z.of_nat (length l) ->
  exists x, getitem l i = Ok x /\ nth_error l (Z.to_nat i) = Some x.
Proof.
  intros Hi. unfold getitem.
  destruct (Z.ltb_spec i 0) as [Hneg | _]; [lia |].
  destruct (Z.leb_spec 0 i) as [_ | Hneg]; [| lia].
  destruct (Z.ltb_spec i (Z.of_nat (length l))) as [_ | Hbig]; [| lia].
  cbn [andb].
  destruct (nth_error l (Z.to_nat i)) as [x |] eqn:Hnth.
  - exists x. auto.
  - apply nth_error_None in Hnth. exfalso. lia.
Qed.

Lemma py_range_In (a b k : Z) : In k (py_range a b) -> a <= k < b.
Proof.
  unfold py_range. rewrite in_map_iff. intros [n [Hk Hn]].
  apply in_seq in Hn. lia.
Qed.

Lemma py_range_length (a b : Z) : length (py_range a b) = Z.to_nat (b - a).
Proof. unfold py_range. now rewrite length_map, length_seq. Qed.

Lemma py_range_single (a : Z) : py_range a (a + 1) = [a].
Proof.
  unfold py_range. replace (a + 1 - a) with 1 by lia.
  change (Z.to_nat 1) with 1%nat. cbn [seq map Z.of_nat].
  now rewrite Z.add_0_r.
Qed.

Lemma py_round_nonneg (x : Q) : (0 <= x)%Q -> 0 <= py_round x.
Proof.
  intros Hx. unfold py_round.
  apply Qle_bool_iff in Hx. rewrite Hx.
  change 0 with (Qfloor 0). apply Qfloor_resp_le.
  apply Qle_bool_iff in Hx.
  apply Qle_trans with x; [exact Hx |].
  rewrite <- (Qplus_0_r x) at 1. apply Qplus_le_r. discriminate.
Qed.

Lemma py_round_ge_1 (x : Q) : (1 <= x)%Q -> 1 <= py_round x.
Proof.
  intros Hx. unfold py_round.
  assert (H0 : (0 <= x)%Q) by (apply Qle_trans with 1%Q; [discriminate | exact Hx]).
  apply Qle_bool_iff in H0. rewrite H0.
  change 1 with (Qfloor 1). apply Qfloor_resp_le.
  apply Qle_trans with x; [exact Hx |].
  rewrite <- (Qplus_0_r x) at 1. apply Qplus_le_r. discriminate.
Qed.

Lemma py_round_1 (x : Q) : (x == 1)%Q -> py_round x = 1.
Proof.
  intros Hx. unfold py_round.
  assert (H0 : Qle_bool 0 x = true)
    by (apply Qle_bool_iff; rewrite Hx; discriminate).
  rewrite H0, Hx. reflexivity.
Qed.

Lemma Qeq_bool_inject_Z_0 (k : Z) : k <> 0 -> Qeq_bool (inject_Z k) 0 = false.
Proof.
  intros Hk. destruct (Qeq_bool (inject_Z k) 0) eqn:E; [| reflexivity].
  apply Qeq_bool_iff in E. unfold Qeq in E. cbn in E. lia.
Qed.

Lemma float_div_nonzero (a : Q) (k : Z) :
  k <> 0 -> float_div a (inject_Z k) = Ok (a / inject_Z k)%Q.
Proof. intros Hk. unfold float_div. now rewrite Qeq_bool_inject_Z_0. Qed.

Lemma Qmult_ge_1 (x y : Q) : (1 <= x)%Q -> (1 <= y)%Q -> (1 <= x * y)%Q.
Proof.
  intros Hx Hy.
  assert (H : (1 * 1 <= x * y)%Q).
  { apply Qmult_le_compat_nonneg; split; try discriminate; assumption. }
  exact H.
Qed.

Lemma skipn_cons_nth {A : Type} (l : list A) : forall n x,
  nth_error l n = Some x -> skipn n l = x :: skipn (S n) l.
Proof.
  induction l as [| y l IH]; intros [| n] x H; cbn in *; try discriminate.
  - now injection H as ->.
  - now apply IH.
Qed.

(** ** The geometric re-binner *)

Section RebinnerFacts.

Variable math_sqrt : Q -> Q.
Variables rms_power_avg rms_err_power freq : list Q.
Variable rebin_const : Q.
Variable length_of_list : Z.

Local Abbreviation entry := (rebin_entry math_sqrt rms_power_avg rms_err_power freq).
Local Abbreviation step := (rebin_step math_sqrt rms_power_avg rms_err_power freq
                    rebin_const).
Local Abbreviation loop := (rebin_loop math_sqrt rms_power_avg rms_err_power freq
                    rebin_const length_of_list).
Local Abbreviation trace := (group_trace rebin_const length_of_list).
Local Abbreviation entries_of :=
  (group_entries math_sqrt rms_power_avg rms_err_power freq).

Lemma getitem_fuel {A : Type} (l : list A) (i : Z) : getitem l i <> OutOfFuel.
Proof.
  unfold getitem.
  destruct (_ && _); [| discriminate].
  destruct (nth_error _ _); discriminate.
Qed.

Lemma bin_sums_fuel (ks : list Z) (a b : Q) :
  bin_sums rms_power_avg rms_err_power ks a b <> OutOfFuel.
Proof.
  revert a b. induction ks as [| k ks IH]; intros a b; cbn; [discriminate |].
  destruct (getitem rms_power_avg k) as [p | |] eqn:Ep; cbn;
    [| discriminate | now apply getitem_fuel in Ep].
  destruct (getitem rms_err_power k) as [e | |] eqn:Ee; cbn;
    [| discriminate | now apply getitem_fuel in Ee].
  apply IH.
Qed.

Lemma rebin_entry_fuel (p c : Z) : entry p c <> OutOfFuel.
Proof.
  unfold rebin_entry.
  destruct (bin_sums _ _ _ _ _) as [[bp e2] | |] eqn:Es; cbn;
    [| discriminate | now apply bin_sums_fuel in Es].
  unfold float_div. destruct (Qeq_bool _ _); cbn; [discriminate |].
  destruct (getitem freq c) as [fc | |] eqn:Ec; cbn;
    [| discriminate | now apply getitem_fuel in Ec].
  destruct (getitem freq p) as [fp | |] eqn:Ep; cbn;
    [| discriminate | now apply getitem_fuel in Ep].
  destruct (_ =? 1); cbn; [| discriminate].
  destruct (getitem rms_power_avg p) as [rp | |] eqn:Er; cbn;
    [| discriminate | now apply getitem_fuel in Er].
  discriminate.
Qed.

Lemma rebin_step_inv (st st' : rebin_state) :
  step st = Ok st' ->
  exists f p e,
    entry (prev_m st) (current_m st) = Ok (f, p, e) /\
    st' = {| rebinned_rms_power := rebinned_rms_power st ++ [p];
             rebinned_freq := rebinned_freq st ++ [f];
             err_rebinned_power := err_rebinned_power st ++ [e];
             real_index := (real_index st * rebin_const)%Q;
             current_m :=
               current_m st + py_round (real_index st * rebin_const);
             prev_m := current_m st |}.
Proof.
  unfold rebin_step.
  destruct (entry (prev_m st) (current_m st)) as [[[f p] e] | |];
    cbn; try discriminate.
  intros H. injection H as <-. now exists f, p, e.
Qed.

Lemma rebin_step_ok (st : rebin_state) (f p e : Q) :
  entry (prev_m st) (current_m st) = Ok (f, p, e) ->
  step st =
    Ok {| rebinned_rms_power := rebinned_rms_power st ++ [p];
          rebinned_freq := rebinned_freq st ++ [f];
          err_rebinned_power := err_rebinned_power st ++ [e];
          real_index := (real_index st * rebin_const)%Q;
          current_m :=
            current_m st + py_round (real_index st * rebin_const);
          prev_m := current_m st |}.
Proof. unfold rebin_step. now intros ->. Qed.

Lemma rebin_step_raise (st : rebin_state) (x : exn) :
  entry (prev_m st) (current_m st) = Raise x -> step st = Raise x.
Proof. unfold rebin_step. now intros ->. Qed.

Lemma rebin_step_fuel (st : rebin_state) : step st <> OutOfFuel.
Proof.
  unfold rebin_step.
  destruct (entry (prev_m st) (current_m st)) as [[[f p] e] | |] eqn:E;
    cbn; try discriminate.
  now apply rebin_entry_fuel in E.
Qed.

(** An empty group divides by zero. *)
Lemma rebin_entry_empty (m : Z) : entry m m = Raise ZeroDivisionError.
Proof.
  unfold rebin_entry, py_range. rewrite Z.sub_diag. reflexivity.
Qed.

(** The loop and the bookkeeping trace agree: a run that returns has
    appended exactly the entries of the groups of the trace. *)
Lemma rebin_loop_trace (fuel : nat) : forall st st',
  loop fuel st = Ok st' ->
  exists es,
    entries_of (trace fuel (real_index st) (current_m st) (prev_m st))
      = Ok es /\
    rebinned_freq st' = rebinned_freq st ++ map (fun t => fst (fst t)) es /\
    rebinned_rms_power st'
      = rebinned_rms_power st ++ map (fun t => snd (fst t)) es /\
    err_rebinned_power st' = err_rebinned_power st ++ map snd es.
Proof.
  induction fuel as [| fuel IH]; intros st st'; cbn;
    destruct (current_m st <? length_of_list); try discriminate.
  - intros H. injection H as <-. exists []. cbn.
    now rewrite !app_nil_r.
  - destruct (step st) as [st1 | |] eqn:Es; cbn; try discriminate.
    intros Hl. apply rebin_step_inv in Es.
    destruct Es as (f & p & e & He & ->).
    apply IH in Hl. cbn in Hl. destruct Hl as (es & Hes & Hf & Hp & Hr).
    exists ((f, p, e) :: es). unfold entries_of in *. cbn.
    rewrite He. cbn. rewrite Hes. cbn.
    rewrite Hf, Hp, Hr, <- !app_assoc. auto.
  - intros H. injection H as <-. exists []. cbn.
    now rewrite !app_nil_r.
Qed.

Lemma chained_trace (fuel : nat) : forall real cur prev,
  (1 <= rebin_const)%Q -> (1 <= real)%Q -> prev < cur ->
  chained prev (trace fuel real cur prev).
Proof.
  induction fuel as [| fuel IH]; intros real cur prev Hc Hr Hlt; cbn;
    destruct (cur <? length_of_list); cbn; auto.
  repeat split; auto.
  assert (H1 : (1 <= real * rebin_const)%Q) by now apply Qmult_ge_1.
  apply IH; auto.
  apply py_round_ge_1 in H1. lia.
Qed.

Lemma rebin_loop_no_timeout (fuel : nat) : forall st,
  (1 <= rebin_const)%Q -> (1 <= real_index st)%Q ->
  length_of_list - current_m st <= Z.of_nat fuel ->
  loop fuel st <> OutOfFuel.
Proof.
  induction fuel as [| fuel IH]; intros st Hc Hr Hfuel; cbn;
    destruct (Z.ltb_spec (current_m st) length_of_list) as [Hlt | Hge];
    try discriminate; try lia.
  destruct (step st) as [st1 | |] eqn:Es; cbn; try discriminate.
  - pose proof Es as Es'. apply rebin_step_inv in Es'.
    destruct Es' as (f & p & e & _ & ->).
    assert (H1 : (1 <= real_index st * rebin_const)%Q) by now apply Qmult_ge_1.
    apply IH; cbn; auto.
    apply py_round_ge_1 in H1. lia.
  - now apply rebin_step_fuel in Es.
Qed.

Lemma rebin_loop_length (fuel : nat) : forall st st',
  (1 <= rebin_const)%Q -> (1 <= real_index st)%Q ->
  loop fuel st = Ok st' ->
  (length (rebinned_freq st')
   <= length (rebinned_freq st) + Z.to_nat (length_of_list - current_m st))%nat.
Proof.
  induction fuel as [| fuel IH]; intros st st' Hc Hr; cbn;
    destruct (Z.ltb_spec (current_m st) length_of_list) as [Hlt | Hge];
    try discriminate.
  - intros H. injection H as <-. lia.
  - destruct (step st) as [st1 | |] eqn:Es; cbn; try discriminate.
    intros Hl. apply rebin_step_inv in Es.
    destruct Es as (f & p & e & _ & ->).
    assert (H1 : (1 <= real_index st * rebin_const)%Q) by now apply Qmult_ge_1.
    apply IH in Hl; cbn; auto. cbn in Hl.
    rewrite length_app in Hl. cbn in Hl.
    apply py_round_ge_1 in H1. lia.
  - intros H. injection H as <-. lia.
Qed.

Lemma trace_below (fuel : nat) : forall real cur prev,
  Forall (fun g => snd g < length_of_list) (trace fuel real cur prev).
Proof.
  induction fuel as [| fuel IH]; intros real cur prev; cbn;
    destruct (Z.ltb_spec cur length_of_list); auto.
Qed.

Lemma trace_length (fuel : nat) : forall real cur prev,
  (1 <= rebin_const)%Q -> (1 <= real)%Q ->
  (length (trace fuel real cur prev) <= Z.to_nat (length_of_list - cur))%nat.
Proof.
  induction fuel as [| fuel IH]; intros real cur prev Hc Hr; cbn;
    destruct (Z.ltb_spec cur length_of_list); cbn; try lia.
  assert (H1 : (1 <= real * rebin_const)%Q) by now apply Qmult_ge_1.
  specialize (IH (real * rebin_const)%Q
                 (cur + py_round (real * rebin_const)) cur Hc H1).
  apply py_round_ge_1 in H1. lia.
Qed.

(** With a re-bin constant equal to 1 every group holds one bin, and the
    groups reach up to [length_of_list - 1]. *)
Lemma trace_const_1 (fuel : nat) : forall real cur,
  (rebin_const == 1)%Q -> (real == 1)%Q ->
  Forall (fun g => Z.abs (snd g - fst g) = 1) (trace fuel real cur (cur - 1)) /\
  (length_of_list - cur <= Z.of_nat fuel ->
   length (trace fuel real cur (cur - 1)) = Z.to_nat (length_of_list - cur)).
Proof.
  induction fuel as [| fuel IH]; intros real cur Hc Hr; cbn [group_trace];
    destruct (Z.ltb_spec cur length_of_list) as [Hlt | Hge];
    try (split; [constructor | cbn; lia]).
  assert (H1 : (real * rebin_const == 1)%Q) by (rewrite Hc, Hr; reflexivity).
  rewrite (py_round_1 _ H1).
  destruct (IH (real * rebin_const)%Q (cur + 1) Hc H1) as [Hunit Hlen].
  replace (cur + 1 - 1) with cur in * by lia.
  split.
  - constructor; [cbn; lia | exact Hunit].
  - intros Hfuel. cbn [length]. rewrite Hlen by lia. lia.
Qed.

Section Bounds.

(** The three lists hold at least [length_of_list] values. *)
Hypothesis Hrms : length_of_list <= Z.of_nat (length rms_power_avg).
Hypothesis Herr : length_of_list <= Z.of_nat (length rms_err_power).
Hypothesis Hfreq : length_of_list <= Z.of_nat (length freq).

Lemma bin_sums_ok (ks : list Z) : forall a b,
  (forall k, In k ks -> 0 <= k < length_of_list) ->
  exists r, bin_sums rms_power_avg rms_err_power ks a b = Ok r.
Proof.
  induction ks as [| k ks IH]; intros a b Hks; cbn.
  - now eexists.
  - assert (Hk : 0 <= k < length_of_list) by (apply Hks; now left).
    destruct (getitem_in_range rms_power_avg k) as (p & -> & _); [lia |].
    destruct (getitem_in_range rms_err_power k) as (e & -> & _); [lia |].
    cbn. apply IH. intros k' Hk'. apply Hks. now right.
Qed.

Lemma rebin_entry_ok (p c : Z) :
  0 <= p < c -> c < length_of_list -> exists e, entry p c = Ok e.
Proof.
  intros Hp Hc. unfold rebin_entry.
  destruct (bin_sums_ok (py_range p c) 0%Q 0%Q) as ([bp e2] & ->).
  { intros k Hk. apply py_range_In in Hk. lia. }
  cbn. rewrite float_div_nonzero by lia. cbn.
  destruct (getitem_in_range freq c) as (fc & -> & _); [lia |].
  destruct (getitem_in_range freq p) as (fp & Hfp & _); [lia |].
  rewrite Hfp. cbn.
  destruct (getitem_in_range rms_power_avg p) as (rp & -> & _); [lia |].
  destruct (_ =? 1); cbn; now eexists.
Qed.

Lemma rebin_loop_total (fuel : nat) : forall st,
  (1 <= rebin_const)%Q -> (1 <= real_index st)%Q ->
  0 <= prev_m st < current_m st ->
  length_of_list - current_m st <= Z.of_nat fuel ->
  exists st', loop fuel st = Ok st'.
Proof.
  induction fuel as [| fuel IH]; intros st Hc Hr Hm Hfuel; cbn;
    destruct (Z.ltb_spec (current_m st) length_of_list) as [Hlt | Hge];
    try (now eexists); try lia.
  destruct (rebin_entry_ok (prev_m st) (current_m st)) as ([[f p] e] & He);
    auto.
  rewrite (rebin_step_ok _ _ _ _ He). cbn.
  assert (H1 : (1 <= real_index st * rebin_const)%Q) by now apply Qmult_ge_1.
  pose proof (py_round_ge_1 _ H1).
  apply IH; cbn; auto; lia.
Qed.

Lemma rebin_loop_in_bounds (fuel : nat) : forall st,
  (0 <= rebin_const)%Q -> (0 <= real_index st)%Q ->
  0 <= prev_m st <= current_m st ->
  loop fuel st <> Raise IndexError.
Proof.
  induction fuel as [| fuel IH]; intros st Hc Hr Hm; cbn;
    destruct (Z.ltb_spec (current_m st) length_of_list) as [Hlt | Hge];
    try discriminate.
  destruct (Z.eq_dec (prev_m st) (current_m st)) as [Heq | Hne].
  - rewrite (rebin_step_raise st ZeroDivisionError); [discriminate |].
    rewrite Heq. apply rebin_entry_empty.
  - destruct (rebin_entry_ok (prev_m st) (current_m st)) as ([[f p] e] & He);
      [lia | auto |].
    rewrite (rebin_step_ok _ _ _ _ He). cbn.
    assert (H0 : (0 <= real_index st * rebin_const)%Q)
      by now apply Qmult_le_0_compat.
    pose proof (py_round_nonneg _ H0).
    apply IH; cbn; auto; lia.
Qed.

(** A group of one original bin: its entry is that bin itself. *)
Lemma rebin_entry_unit (m : Z) :
  0 <= m -> m + 1 < length_of_list ->
  exists fm rm em,
    nth_error freq (Z.to_nat m) = Some fm /\
    nth_error rms_power_avg (Z.to_nat m) = Some rm /\
    nth_error rms_err_power (Z.to_nat m) = Some em /\
    entry m (m + 1) = Ok (fm, rm, (math_sqrt (0 + em ^ 2) / inject_Z 1)%Q).
Proof.
  intros Hm Hlt.
  destruct (getitem_in_range freq m) as (fm & Hgf & Hnf); [lia |].
  destruct (getitem_in_range rms_power_avg m) as (rm & Hgr & Hnr); [lia |].
  destruct (getitem_in_range rms_err_power m) as (em & Hge & Hne); [lia |].
  destruct (getitem_in_range freq (m + 1)) as (fc & Hgc & _); [lia |].
  exists fm, rm, em. repeat split; auto.
  unfold rebin_entry. rewrite py_range_single.
  replace (m + 1 - m) with 1 by lia.
  cbn [bin_sums]. rewrite Hgr, Hge. cbn [bind Z.abs].
  rewrite float_div_nonzero by lia. cbn [bind].
  rewrite Hgc, Hgf. cbn [bind]. rewrite Z.eqb_refl.
  rewrite ?Hgr, ?Hgf. reflexivity.
Qed.

Lemma unit_groups_entries (gs : list (Z * Z)) : forall s,
  0 <= s -> chained s gs ->
  Forall (fun g => Z.abs (snd g - fst g) = 1) gs ->
  Forall (fun g => snd g < length_of_list) gs ->
  exists es,
    entries_of gs = Ok es /\
    map (fun t => fst (fst t)) es
      = firstn (length gs) (skipn (Z.to_nat s) freq) /\
    map (fun t => snd (fst t)) es
      = firstn (length gs) (skipn (Z.to_nat s) rms_power_avg) /\
    map snd es
      = map (fun x => (math_sqrt (0 + x ^ 2) / inject_Z 1)%Q)
            (firstn (length gs) (skipn (Z.to_nat s) rms_err_power)).
Proof.
  induction gs as [| [p q] gs IH]; intros s Hs Hch Hunit Hlt.
  - exists []. cbn. auto.
  - cbn in Hch. destruct Hch as (-> & Hpq & Hch).
    inversion Hunit as [| ? ? Hu Hunit']; subst.
    inversion Hlt as [| ? ? Hq Hlt']; subst. cbn in Hu, Hq.
    assert (q = s + 1) by lia. subst q.
    destruct (rebin_entry_unit s) as (fm & rm & em & Hf & Hr & He & Hent);
      auto.
    destruct (IH (s + 1)) as (es & Hes & Hfs & Hrs & Hers); auto; [lia |].
    exists ((fm, rm, (math_sqrt (0 + em ^ 2) / inject_Z 1)%Q) :: es).
    unfold entries_of in *. cbn [map_outcome fst snd].
    rewrite Hent. cbn [bind]. rewrite Hes. cbn [bind].
    replace (Z.to_nat (s + 1)) with (S (Z.to_nat s)) in * by lia.
    rewrite (skipn_cons_nth _ _ _ Hf), (skipn_cons_nth _ _ _ Hr),
      (skipn_cons_nth _ _ _ He).
    cbn [length firstn map fst snd].
    rewrite Hfs, Hrs, Hers. auto.
Qed.

End Bounds.

End RebinnerFacts.

Lemma exact_sqrt_square (x : Q) :
  (0 <= x)%Q -> (exact_sqrt (0 + x ^ 2) == x)%Q.
Proof.
  destruct x as [a b]. intros Ha.
  assert (Ha' : 0 <= a) by (unfold Qle in Ha; cbn in Ha; lia).
  unfold exact_sqrt. cbn.
  replace (a * a * 1 * Z.pos (b * b)) with ((a * Z.pos b) * (a * Z.pos b))
    by (rewrite Pos2Z.inj_mul; ring).
  rewrite Z.sqrt_square by (apply Z.mul_nonneg_nonneg; lia).
  unfold Qeq. cbn. rewrite Pos2Z.inj_mul. ring.
Qed.

Lemma rebin_loop_exit (math_sqrt : Q -> Q) (rms err freq : list Q) (c : Q)
    (L : Z) (fuel : nat) : forall st st',
  rebin_loop math_sqrt rms err freq c L fuel st = Ok st' -> L <= current_m st'.
Proof.
  induction fuel as [| fuel IH]; intros st st'; cbn;
    destruct (Z.ltb_spec (current_m st) L) as [Hlt | Hge]; try discriminate.
  - intros H. injection H as <-. exact Hge.
  - destruct (rebin_step math_sqrt rms err freq c st) as [st1 | |];
      cbn; try discriminate.
    apply IH.
  - intros H. injection H as <-. exact Hge.
Qed.

Lemma geometric_rebinning_entries (math_sqrt : Q -> Q) (rms err freq : list Q)
    (c : Q) (L : Z) (fuel : nat) (f p e : list Q) :
  geometric_rebinning math_sqrt rms err freq c L fuel = Ok (f, p, e) ->
  exists es,
    group_entries math_sqrt rms err freq (rebin_groups c L fuel) = Ok es /\
    f = map (fun t => fst (fst t)) es /\
    p = map (fun t => snd (fst t)) es /\
    e = map snd es.
Proof.
  unfold geometric_rebinning.
  destruct (rebin_loop _ _ _ _ _ _ _ _) as [st | |] eqn:El; cbn;
    try discriminate.
  intros H. injection H as <- <- <-.
  apply rebin_loop_trace in El. cbn in El.
  destruct El as (es & Hes & Hf & Hp & He).
  exists es. auto.
Qed.

Lemma geometric_rebinning_total (math_sqrt : Q -> Q) (rms err freq : list Q)
    (c : Q) (L : Z) (fuel : nat) :
  L <= Z.of_nat (length rms) -> L <= Z.of_nat (length err) ->
  L <= Z.of_nat (length freq) ->
  (1 <= c)%Q -> L - 1 <= Z.of_nat fuel ->
  exists out, geometric_rebinning math_sqrt rms err freq c L fuel = Ok out.
Proof.
  intros Hr He Hf Hc Hfuel. unfold geometric_rebinning.
  assert (Hloop : exists st,
             rebin_loop math_sqrt rms err freq c L fuel rebin_init = Ok st).
  { apply rebin_loop_total; cbn; auto; try lia. discriminate. }
  destruct Hloop as (st & ->). cbn. now eexists.
Qed.

(** C3 (amended).  For every run with [rebin_const >= 1] the groups
    [[prev_m, current_m)] the loop visits are non-empty and adjacent (each
    starts where the one before it ended), the first group is [[0, 1)], the
    DC bin itself, and a run that returns has emitted exactly one entry per
    group. *)
Theorem rebin_groups_adjacent (math_sqrt : Q -> Q) (rms err freq : list Q)
    (c : Q) (L : Z) (fuel : nat) :
  (1 <= c)%Q ->
  chained 0 (rebin_groups c L fuel) /\
  (1 < L -> (0 < fuel)%nat -> hd_error (rebin_groups c L fuel) = Some (0, 1)) /\
  (forall f p e,
     geometric_rebinning math_sqrt rms err freq c L fuel = Ok (f, p, e) ->
     exists es,
       group_entries math_sqrt rms err freq (rebin_groups c L fuel) = Ok es /\
       f = map (fun t => fst (fst t)) es /\
       p = map (fun t => snd (fst t)) es /\
       e = map snd es).
Proof.
  intros Hc. repeat split.
  - apply chained_trace; [exact Hc | discriminate | lia].
  - intros HL Hfuel. destruct fuel as [| fuel]; [lia |].
    unfold rebin_groups. cbn.
    destruct (Z.ltb_spec 1 L); [reflexivity | lia].
  - intros f p e. apply geometric_rebinning_entries.
Qed.

Lemma rebin_groups_adjacent_witness :
  (1 <= 3 # 2)%Q /\ chained 0 (rebin_groups (3 # 2) 5 5).
Proof.
  split.
  - unfold Qle. cbn. lia.
  - apply (rebin_groups_adjacent exact_sqrt [] [] [] (3 # 2) 5 5).
    unfold Qle. cbn. lia.
Defined.

(** With [rebin_const = 1.5] and five bins the groups are [[0,1)] and
    [[1,3)]: the first one does not start at index 1. *)
Lemma first_group_not_from_index_1 : ~ chained 1 (rebin_groups (3 # 2) 5 5).
Proof. vm_compute. intros [H _]. discriminate H. Qed.

(** C8.  For [rebin_const >= 1] every iteration increases [current_m] by at
    least one, so the loop, governed by [current_m < length_of_list] alone,
    stops within [length_of_list - 1] iterations; it returns when the lists
    are long enough, and what it returns has at most [length_of_list - 1]
    entries. *)
Theorem rebin_loop_terminates (math_sqrt : Q -> Q) (rms err freq : list Q)
    (c : Q) (L : Z) :
  (1 <= c)%Q ->
  (forall st st',
     (1 <= real_index st)%Q ->
     rebin_step math_sqrt rms err freq c st = Ok st' ->
     current_m st < current_m st' /\ (1 <= real_index st')%Q) /\
  (forall fuel st st',
     rebin_loop math_sqrt rms err freq c L fuel st = Ok st' ->
     L <= current_m st') /\
  (forall fuel, L - 1 <= Z.of_nat fuel ->
     geometric_rebinning math_sqrt rms err freq c L fuel <> OutOfFuel) /\
  (forall fuel f p e,
     geometric_rebinning math_sqrt rms err freq c L fuel = Ok (f, p, e) ->
     (length f <= Z.to_nat (L - 1))%nat /\
     length p = length f /\ length e = length f) /\
  (L <= Z.of_nat (length rms) -> L <= Z.of_nat (length err) ->
   L <= Z.of_nat (length freq) ->
   forall fuel, L - 1 <= Z.of_nat fuel ->
     exists out, geometric_rebinning math_sqrt rms err freq c L fuel = Ok out).
Proof.
  intros Hc. repeat apply conj.
  - intros st st' Hr Hs. apply rebin_step_inv in Hs.
    destruct Hs as (f & p & e & _ & ->). cbn.
    assert (H1 : (1 <= real_index st * c)%Q) by now apply Qmult_ge_1.
    split; [| exact H1]. apply py_round_ge_1 in H1. lia.
  - intros fuel st st'. apply rebin_loop_exit.
  - intros fuel Hfuel. unfold geometric_rebinning.
    destruct (rebin_loop _ _ _ _ _ _ _ _) as [st | |] eqn:El; cbn;
      try discriminate.
    intros _.
    apply (rebin_loop_no_timeout math_sqrt rms err freq c L fuel rebin_init);
      cbn; [exact Hc | discriminate | lia | exact El].
  - intros fuel f p e H.
    destruct (geometric_rebinning_entries _ _ _ _ _ _ _ _ _ _ H)
      as (es & _ & -> & -> & ->).
    rewrite !length_map. repeat split.
    unfold geometric_rebinning in H.
    destruct (rebin_loop _ _ _ _ _ _ _ _) as [st | |] eqn:El; cbn in H;
      try discriminate.
    injection H as H _ _.
    apply rebin_loop_length in El; auto; [| discriminate].
    rewrite H, length_map in El. cbn in El. exact El.
  - intros Hr He Hf fuel Hfuel. now apply geometric_rebinning_total.
Qed.

Lemma rebin_loop_terminates_witness :
  (1 <= 3 # 2)%Q /\
  geometric_rebinning exact_sqrt [10; 20; 30; 40; 50]%Q [1; 1; 1; 1; 1]%Q
    [0; 1; 2; 3; 4]%Q (3 # 2) 5 4 <> OutOfFuel.
Proof.
  split.
  - unfold Qle. cbn. lia.
  - apply (rebin_loop_terminates exact_sqrt [10; 20; 30; 40; 50]%Q
             [1; 1; 1; 1; 1]%Q [0; 1; 2; 3; 4]%Q (3 # 2) 5).
    + unfold Qle. cbn. lia.
    + cbn. lia.
Defined.

(** C10 (amended).  When the three lists hold at least [length_of_list]
    values, no read is out of range for any [rebin_const >= 0], and for
    [rebin_const >= 1] (what [main] asserts) the function returns. *)
Theorem rebin_reads_in_bounds (math_sqrt : Q -> Q) (rms err freq : list Q)
    (c : Q) (L : Z) :
  L <= Z.of_nat (length rms) -> L <= Z.of_nat (length err) ->
  L <= Z.of_nat (length freq) ->
  ((0 <= c)%Q -> forall fuel,
     geometric_rebinning math_sqrt rms err freq c L fuel <> Raise IndexError) /\
  ((1 <= c)%Q -> forall fuel, L - 1 <= Z.of_nat fuel ->
     exists out, geometric_rebinning math_sqrt rms err freq c L fuel = Ok out).
Proof.
  intros Hr He Hf. split.
  - intros Hc fuel. unfold geometric_rebinning.
    destruct (rebin_loop _ _ _ _ _ _ _ _) as [st | x |] eqn:El; cbn;
      try discriminate.
    intros H. injection H as ->.
    apply (rebin_loop_in_bounds math_sqrt rms err freq c L Hr He Hf fuel
             rebin_init); cbn; [exact Hc | discriminate | lia | exact El].
  - intros Hc fuel Hfuel. now apply geometric_rebinning_total.
Qed.

Lemma rebin_reads_in_bounds_witness :
  3 <= Z.of_nat (length [10; 20; 30]%Q) /\
  3 <= Z.of_nat (length [1; 2; 3]%Q) /\
  3 <= Z.of_nat (length [0; 1; 2]%Q) /\
  geometric_rebinning exact_sqrt [10; 20; 30]%Q [1; 2; 3]%Q [0; 1; 2]%Q
    (1 # 4) 3 3 <> Raise IndexError.
Proof.
  assert (H : 3 <= Z.of_nat 3) by (cbn; lia).
  repeat split; try exact H.
  apply (rebin_reads_in_bounds exact_sqrt [10; 20; 30]%Q [1; 2; 3]%Q
           [0; 1; 2]%Q (1 # 4) 3 H H H).
  unfold Qle. cbn. lia.
Defined.

(** With [rebin_const = -100] the second iteration reads [freq[-99]] in a
    list of three values. *)
Lemma negative_rebin_const_out_of_range :
  ~ (3 <= Z.of_nat (length [10; 20; 30]%Q) ->
     3 <= Z.of_nat (length [1; 2; 3]%Q) ->
     3 <= Z.of_nat (length [0; 1; 2]%Q) ->
     geometric_rebinning exact_sqrt [10; 20; 30]%Q [1; 2; 3]%Q [0; 1; 2]%Q
       (-100) 3 3 <> Raise IndexError).
Proof.
  intros H. apply H; try (cbn; lia). vm_compute. reflexivity.
Qed.

Lemma Forall_firstn_keep {A : Type} (P : A -> Prop) (l : list A) : forall n,
  Forall P l -> Forall P (firstn n l).
Proof.
  induction l as [| x l IH]; intros [| n] H; cbn; auto.
  inversion H; subst. constructor; auto.
Qed.

Lemma sqrt_of_squares_exact (math_sqrt : Q -> Q) (l : list Q) :
  (forall x, (0 <= x)%Q -> (math_sqrt (0 + x ^ 2) == x)%Q) ->
  Forall (fun x => (0 <= x)%Q) l ->
  Forall2 Qeq (map (fun x => (math_sqrt (0 + x ^ 2) / inject_Z 1)%Q) l) l.
Proof.
  intros Hsqrt Hl. induction Hl as [| x l Hx Hl IH]; cbn; constructor; auto.
  rewrite (Hsqrt x Hx). unfold Qdiv. change (/ inject_Z 1)%Q with 1%Q.
  apply Qmult_1_r.
Qed.

(** C4 (amended).  When every group has [bin_range == 1], the re-binned
    spectrum is a prefix of the unbinned one that starts at the DC bin: with
    [G] groups, [G <= L - 1], entry [k] is
    [(freq[k], rms[k], sqrt(rms_err[k]^2) / 1)] for [k = 0 .. G-1], and its
    error is [rms_err[k]] when the errors are non-negative and the square
    root is exact; a re-bin constant equal to 1 gives [G = L - 1]. *)
Theorem unit_groups_reproduce_prefix (math_sqrt : Q -> Q)
    (rms err freq : list Q) (c : Q) (L : Z) (fuel : nat) :
  (1 <= c)%Q -> L - 1 <= Z.of_nat fuel ->
  L <= Z.of_nat (length rms) -> L <= Z.of_nat (length err) ->
  L <= Z.of_nat (length freq) ->
  Forall (fun g => Z.abs (snd g - fst g) = 1) (rebin_groups c L fuel) ->
  let G := length (rebin_groups c L fuel) in
  let errors :=
    map (fun x => (math_sqrt (0 + x ^ 2) / inject_Z 1)%Q) (firstn G err) in
  (G <= Z.to_nat (L - 1))%nat /\
  geometric_rebinning math_sqrt rms err freq c L fuel
    = Ok (firstn G freq, firstn G rms, errors) /\
  ((forall x, (0 <= x)%Q -> (math_sqrt (0 + x ^ 2) == x)%Q) ->
   Forall (fun x => (0 <= x)%Q) err ->
   Forall2 Qeq errors (firstn G err)) /\
  ((c == 1)%Q -> G = Z.to_nat (L - 1)).
Proof.
  intros Hc Hfuel Hr He Hf Hunit G errors. repeat apply conj.
  4: { intros Hc1. subst G. unfold rebin_groups.
       apply (trace_const_1 c L fuel 1%Q 1); [exact Hc1 | reflexivity | lia]. }
  - apply trace_length; [exact Hc | discriminate].
  - destruct (geometric_rebinning_total math_sqrt rms err freq c L fuel)
      as ([[f p] e] & Hout); auto.
    rewrite Hout.
    destruct (geometric_rebinning_entries _ _ _ _ _ _ _ _ _ _ Hout)
      as (es & Hes & -> & -> & ->).
    destruct (unit_groups_entries math_sqrt rms err freq L Hr He Hf
                (rebin_groups c L fuel) 0) as (es' & Hes' & Hf' & Hp' & He');
      auto; try lia.
    + apply chained_trace; [exact Hc | discriminate | lia].
    + apply trace_below.
    + rewrite Hes in Hes'. injection Hes' as <-.
      cbn in Hf', Hp', He'. subst G errors. now rewrite Hf', Hp', He'.
  - intros Hsqrt Hpos. apply sqrt_of_squares_exact; auto.
    now apply Forall_firstn_keep.
Qed.

Lemma unit_groups_reproduce_prefix_witness :
  (1 <= 1)%Q /\ 3 - 1 <= Z.of_nat 3 /\
  Forall (fun g => Z.abs (snd g - fst g) = 1) (rebin_groups 1 3 3) /\
  geometric_rebinning exact_sqrt [10; 20; 30]%Q [1; 2; 3]%Q [0; 1; 2]%Q 1 3 3
    = Ok (firstn 2 [0; 1; 2]%Q, firstn 2 [10; 20; 30]%Q,
          map (fun x => (exact_sqrt (0 + x ^ 2) / inject_Z 1)%Q)
              (firstn 2 [1; 2; 3]%Q)) /\
  Forall2 Qeq
    (map (fun x => (exact_sqrt (0 + x ^ 2) / inject_Z 1)%Q)
         (firstn 2 [1; 2; 3]%Q))
    (firstn 2 [1; 2; 3]%Q).
Proof.
  assert (Hc : (1 <= 1)%Q) by (unfold Qle; cbn; lia).
  assert (Hfuel : 3 - 1 <= Z.of_nat 3) by (cbn; lia).
  assert (Hlen : 3 <= Z.of_nat 3) by (cbn; lia).
  assert (Hunit : Forall (fun g => Z.abs (snd g - fst g) = 1)
                         (rebin_groups 1 3 3)).
  { vm_compute. repeat constructor. }
  assert (Hpos : Forall (fun x => (0 <= x)%Q) [1; 2; 3]%Q).
  { repeat constructor; unfold Qle; cbn; lia. }
  split; [exact Hc |]. split; [exact Hfuel |]. split; [exact Hunit |].
  destruct (unit_groups_reproduce_prefix exact_sqrt
              [10; 20; 30]%Q [1; 2; 3]%Q [0; 1; 2]%Q 1 3 3
              Hc Hfuel Hlen Hlen Hlen Hunit) as (_ & Hout & Herr & _).
  split; [exact Hout | exact (Herr exact_sqrt_square Hpos)].
Defined.

(** With [rebin_const = 1] and three bins every group has one bin, and the
    output is bins 0 and 1, not the non-DC bins 1 and 2. *)
Lemma unit_groups_keep_dc_drop_last :
  ~ (Forall (fun g => Z.abs (snd g - fst g) = 1) (rebin_groups 1 3 3) ->
     geometric_rebinning exact_sqrt [10; 20; 30]%Q [1; 2; 3]%Q [0; 1; 2]%Q
       1 3 3 = Ok ([1; 2]%Q, [20; 30]%Q, [2; 3]%Q)).
Proof.
  intros H.
  assert (Hunit : Forall (fun g => Z.abs (snd g - fst g) = 1)
                         (rebin_groups 1 3 3)).
  { vm_compute. repeat constructor. }
  specialize (H Hunit). vm_compute in H. discriminate H.
Qed.

(** ** The retained frequencies *)

Lemma Qlt_bool_true (x y : Q) : (x < y)%Q -> Qlt_bool x y = true.
Proof.
  intros H. unfold Qlt_bool.
  destruct (Qle_bool y x) eqn:E; [| reflexivity].
  apply Qle_bool_iff in E. now apply Qlt_not_le in H.
Qed.

Lemma Qlt_bool_false (x y : Q) : (y <= x)%Q -> Qlt_bool x y = false.
Proof.
  intros H. unfold Qlt_bool. apply Qle_bool_iff in H. now rewrite H.
Qed.

Lemma Qeq_bool_false_lt (x y : Q) : (x < y)%Q -> Qeq_bool x y = false.
Proof.
  intros H. destruct (Qeq_bool x y) eqn:E; [| reflexivity].
  apply Qeq_bool_iff in E. rewrite E in H. now apply Qlt_irrefl in H.
Qed.

Local Abbreviation keep_larger :=
  (fun m y : Q => if Qlt_bool m y then y else m).

Lemma fold_keep_larger_In (l : list Q) : forall m,
  In (fold_left keep_larger l m) (m :: l).
Proof.
  induction l as [| x l IH]; intros m; cbn.
  - now left.
  - destruct (Qlt_bool m x).
    + destruct (IH x) as [H | H]; auto.
    + destruct (IH m) as [H | H]; auto.
Qed.

Lemma fold_keep_larger_stays (l : list Q) : forall m,
  (forall x, In x l -> (x <= m)%Q) -> fold_left keep_larger l m = m.
Proof.
  induction l as [| x l IH]; intros m Hl; cbn; [reflexivity |].
  rewrite Qlt_bool_false by (apply Hl; now left).
  apply IH. intros y Hy. apply Hl. now right.
Qed.

(** [max] of a list whose largest value first occurs after [l1]. *)
Lemma py_max_first_largest (l1 l2 : list Q) (y : Q) :
  (forall x, In x l1 -> (x < y)%Q) ->
  (forall x, In x l2 -> (x <= y)%Q) ->
  py_max (l1 ++ y :: l2) = Ok y.
Proof.
  intros H1 H2. destruct l1 as [| m l1]; cbn.
  - now rewrite fold_keep_larger_stays.
  - rewrite fold_left_app. cbn.
    rewrite Qlt_bool_true.
    + now rewrite fold_keep_larger_stays.
    + apply H1. apply fold_keep_larger_In.
Qed.

Lemma list_index_first (l1 l2 : list Q) (y v : Q) :
  (forall x, In x l1 -> Qeq_bool x v = false) ->
  Qeq_bool y v = true ->
  list_index (l1 ++ y :: l2) v = Ok (Z.of_nat (length l1)).
Proof.
  intros H1 Hy. induction l1 as [| x l1 IH]; cbn [app list_index length].
  - now rewrite Hy.
  - rewrite H1 by now left.
    rewrite IH by (intros z Hz; apply H1; now right).
    cbn [bind]. f_equal. lia.
Qed.

Lemma py_range_snoc (a b : Z) :
  a <= b -> py_range a (b + 1) = py_range a b ++ [b].
Proof.
  intros Hab. unfold py_range.
  replace (Z.to_nat (b + 1 - a)) with (S (Z.to_nat (b - a))) by lia.
  rewrite seq_S, map_app. cbn [map]. do 2 f_equal. lia.
Qed.

Lemma py_slice_prefix {A : Type} (l : list A) (k : Z) :
  0 <= k -> py_slice l 0 k = firstn (Z.to_nat k) l.
Proof.
  intros Hk. unfold py_slice, clip_index.
  destruct (Z.ltb_spec k 0); [lia |].
  change (0 <? 0) with false. cbv iota.
  set (len := Z.of_nat (length l)).
  assert (Hlen : 0 <= len) by (subst len; lia).
  replace (Z.max 0 (Z.min len 0)) with 0 by lia.
  cbn [Z.to_nat skipn].
  destruct (Z.le_ge_cases k len) as [Hle | Hge].
  - now replace (Z.max 0 (Z.min len k) - 0) with k by lia.
  - replace (Z.max 0 (Z.min len k) - 0) with len by lia.
    subst len. rewrite Nat2Z.id.
    rewrite firstn_all. symmetry. apply firstn_all2. lia.
Qed.

Lemma firstn_app_exact {A : Type} (l1 l2 : list A) :
  firstn (length l1) (l1 ++ l2) = l1.
Proof. induction l1 as [| x l1 IH]; cbn; [reflexivity | now rewrite IH]. Qed.

Lemma nth_py_range (a b : Z) (i : nat) (d : Z) :
  (i < Z.to_nat (b - a))%nat -> nth i (py_range a b) d = a + Z.of_nat i.
Proof.
  intros Hi. unfold py_range.
  rewrite (nth_indep _ d (a + Z.of_nat 0)) by now rewrite length_map, length_seq.
  rewrite (map_nth (fun k => a + Z.of_nat k)), seq_nth by exact Hi.
  reflexivity.
Qed.

Lemma bin_freq_hz_mono (n scale k k' : Z) :
  0 < n -> 0 < scale -> k < k' ->
  (bin_freq_hz n scale k < bin_freq_hz n scale k')%Q.
Proof.
  intros Hn Hs Hk. unfold bin_freq_hz.
  assert (Hn' : (0 < inject_Z n * 1)%Q) by (unfold Qlt; cbn; lia).
  assert (Hval : (0 < 1 / (inject_Z n * 1))%Q).
  { unfold Qdiv. rewrite Qmult_1_l. now apply Qinv_lt_0_compat. }
  assert (Hs' : (0 < inject_Z scale)%Q) by (unfold Qlt; cbn; lia).
  apply Qmult_lt_compat_r; [exact Hs' |].
  apply Qmult_lt_compat_r; [exact Hval |].
  rewrite <- Zlt_Qlt. exact Hk.
Qed.

Lemma freq_hz_bins (n scale : Z) :
  n <> 0 ->
  freq_hz n scale
    = Ok (map (bin_freq_hz n scale)
              (py_range 0 ((n - 1) / 2 + 1) ++ py_range (- (n / 2)) 0)).
Proof.
  intros Hn. unfold freq_hz, fftfreq, float_div.
  assert (E : Qeq_bool (inject_Z n * 1) 0 = false).
  { destruct (Qeq_bool (inject_Z n * 1) 0) eqn:E; [| reflexivity].
    apply Qeq_bool_iff in E. unfold Qeq in E. cbn in E. lia. }
  rewrite E. cbn [bind]. now rewrite map_map.
Qed.

(** C1 (amended).  For an even number [n] of bins per segment and a positive
    scale [int(1/dt)], the largest frequency sits at index [n/2 - 1]: the
    frequency array and the averaged power are cut to the [n/2] bins
    [0 .. n/2 - 1], ascending from 0, the Nyquist bin [n/2] (a negative
    frequency for [fftfreq]) not retained. *)
Theorem positive_frequencies_retained (n scale : Z) (power_avg : list Q) :
  0 < n -> Z.even n = true -> 0 < scale ->
  length power_avg = Z.to_nat n ->
  exists freq,
    freq_hz n scale = Ok freq /\
    max_index_of freq = Ok (n / 2 - 1) /\
    let retained := py_slice freq 0 (n / 2 - 1 + 1) in
    retained = map (bin_freq_hz n scale) (py_range 0 (n / 2)) /\
    length retained = Z.to_nat (n / 2) /\
    length (py_slice power_avg 0 (n / 2 - 1 + 1)) = Z.to_nat (n / 2) /\
    (nth 0 retained 1 == 0)%Q /\
    (forall i j, (i < j < length retained)%nat ->
                 (nth i retained 0 < nth j retained 0)%Q).
Proof.
  intros Hn Heven Hs Hlen.
  apply Z.even_spec in Heven. destruct Heven as [m ->].
  assert (Hm : 1 <= m) by lia.
  assert (Hhalf : 2 * m / 2 = m) by (rewrite Z.mul_comm; apply Z.div_mul; lia).
  assert (Hlow : (2 * m - 1) / 2 + 1 = m).
  { replace (2 * m - 1) with (1 + (m - 1) * 2) by lia.
    rewrite Z.div_add by lia. change (1 / 2) with 0. lia. }
  set (f := bin_freq_hz (2 * m) scale).
  assert (Hmono : forall k k', k < k' -> (f k < f k')%Q).
  { intros k k' Hk. now apply bin_freq_hz_mono. }
  eexists. split; [apply freq_hz_bins; lia |].
  rewrite Hhalf, Hlow. fold f.
  replace (py_range 0 m) with (py_range 0 (m - 1) ++ [m - 1])
    by (rewrite <- py_range_snoc by lia; f_equal; lia).
  rewrite <- app_assoc, map_app. cbn [app map].
  assert (Hbefore : forall x, In x (map f (py_range 0 (m - 1))) ->
                              (x < f (m - 1)%Z)%Q).
  { intros x Hx. apply in_map_iff in Hx. destruct Hx as (k & <- & Hk).
    apply py_range_In in Hk. apply Hmono. lia. }
  assert (Hafter : forall x, In x (map f (py_range (- m) 0)) ->
                             (x <= f (m - 1)%Z)%Q).
  { intros x Hx. apply in_map_iff in Hx. destruct Hx as (k & <- & Hk).
    apply py_range_In in Hk. apply Qlt_le_weak, Hmono. lia. }
  split.
  { unfold max_index_of. rewrite py_max_first_largest by assumption.
    cbn [bind]. rewrite list_index_first.
    - rewrite length_map, py_range_length. f_equal. lia.
    - intros x Hx. now apply Qeq_bool_false_lt, Hbefore.
    - apply Qeq_bool_refl. }
  assert (Hretained :
    py_slice (map f (py_range 0 (m - 1)) ++ f (m - 1) :: map f (py_range (- m) 0))
             0 (m - 1 + 1)
    = map f (py_range 0 (m - 1) ++ [m - 1])).
  { rewrite py_slice_prefix by lia.
    replace (map f (py_range 0 (m - 1)) ++ f (m - 1) :: map f (py_range (- m) 0))
      with (map f (py_range 0 (m - 1) ++ [m - 1]) ++ map f (py_range (- m) 0))
      by (rewrite map_app, <- app_assoc; reflexivity).
    replace (Z.to_nat (m - 1 + 1))
      with (length (map f (py_range 0 (m - 1) ++ [m - 1]))).
    - apply firstn_app_exact.
    - rewrite length_map, length_app, py_range_length. cbn. lia. }
  cbv zeta. rewrite Hretained.
  assert (Hrange : py_range 0 (m - 1) ++ [m - 1] = py_range 0 m)
    by (rewrite <- py_range_snoc by lia; f_equal; lia).
  rewrite Hrange.
  assert (Hnth : forall i d, (i < Z.to_nat m)%nat ->
                   nth i (map f (py_range 0 m)) d = f (Z.of_nat i)).
  { intros i d Hi.
    rewrite (nth_indep _ d (f 0))
      by (rewrite length_map, py_range_length; lia).
    rewrite map_nth, nth_py_range by lia. reflexivity. }
  split; [reflexivity |].
  split; [rewrite length_map, py_range_length; f_equal; lia |].
  split.
  { rewrite py_slice_prefix by lia. rewrite length_firstn. lia. }
  split.
  - rewrite Hnth by lia. unfold f, bin_freq_hz. cbn [Z.of_nat].
    unfold Qeq. cbn. lia.
  - intros i j Hij. rewrite length_map, py_range_length in Hij.
    rewrite !Hnth by lia. apply Hmono. lia.
Qed.

Lemma positive_frequencies_retained_witness :
  0 < 8 /\ Z.even 8 = true /\ 0 < 2 /\
  length (repeat 0%Q 8) = Z.to_nat 8 /\
  exists freq, freq_hz 8 2 = Ok freq /\ max_index_of freq = Ok (8 / 2 - 1).
Proof.
  assert (H1 : 0 < 8) by lia.
  assert (H2 : Z.even 8 = true) by reflexivity.
  assert (H3 : 0 < 2) by lia.
  assert (H4 : length (repeat 0%Q 8) = Z.to_nat 8) by reflexivity.
  split; [exact H1 |]. split; [exact H2 |]. split; [exact H3 |].
  split; [exact H4 |].
  destruct (positive_frequencies_retained 8 2 (repeat 0%Q 8) H1 H2 H3 H4)
    as (freq & Hf & Hm & _).
  exists freq. split; assumption.
Defined.

(** With four bins per segment the frequencies are [0, 1/4, -1/2, -1/4]:
    two bins are retained, not [4/2 + 1 = 3]. *)
Lemma nyquist_bin_not_retained :
  ~ (exists freq idx,
       freq_hz 4 1 = Ok freq /\ max_index_of freq = Ok idx /\
       length (py_slice freq 0 (idx + 1)) = Z.to_nat (4 / 2 + 1)).
Proof.
  intros (freq & idx & Hf & Hi & Hl).
  vm_compute in Hf. injection Hf as <-.
  vm_compute in Hi. injection Hi as <-.
  vm_compute in Hl. discriminate Hl.
Qed.

(** ** The normalisations *)

Lemma nth_map_in_range {A B : Type} (g : A -> B) (l : list A) (k : nat)
    (d : A) (d' : B) :
  (k < length l)%nat -> nth k (map g l) d' = g (nth k l d).
Proof.
  intros Hk. rewrite (nth_indep _ d' (g d)) by now rewrite length_map.
  apply map_nth.
Qed.

(** C6 (amended).  Away from divisions by zero, bin [k] of the three
    normalised spectra is given by the formulas with the denominator
    [(1/dt) * num_seconds]; that denominator is [n_bins] when [1/dt] is an
    integer, and then the formulas with [n_bins] hold. *)
Theorem normalization_formulas (dt : Q) (num_seconds : Z) (mean_rate_whole : Q)
    (power_avg err_power : list Q) (k : nat) :
  (0 < dt)%Q -> 0 < num_seconds -> ~ (mean_rate_whole == 0)%Q ->
  (k < length power_avg)%nat -> (k < length err_power)%nat ->
  let n_bins := num_seconds * py_int (1 / dt) in
  let leahy := leahy_normalization dt num_seconds mean_rate_whole power_avg in
  let rms := rms_normalization dt num_seconds mean_rate_whole power_avg in
  let rms_err :=
    rms_err_normalization dt num_seconds mean_rate_whole err_power in
  (nth k leahy 0
   = 2 * nth k power_avg 0 * dt / ((1 / dt) * inject_Z num_seconds)
     / mean_rate_whole /\
   nth k rms 0
   = 2 * nth k power_avg 0 * dt / ((1 / dt) * inject_Z num_seconds)
     / mean_rate_whole ^ 2 - 2 / mean_rate_whole /\
   nth k rms_err 0
   = 2 * nth k err_power 0 * dt / ((1 / dt) * inject_Z num_seconds)
     / mean_rate_whole ^ 2)%Q /\
  ((inject_Z (py_int (1 / dt)) == 1 / dt)%Q ->
   (nth k leahy 0
    == 2 * nth k power_avg 0 * dt / inject_Z n_bins / mean_rate_whole /\
    nth k rms 0
    == 2 * nth k power_avg 0 * dt / inject_Z n_bins / mean_rate_whole ^ 2
       - 2 / mean_rate_whole /\
    nth k rms_err 0
    == 2 * nth k err_power 0 * dt / inject_Z n_bins / mean_rate_whole ^ 2)%Q).
Proof.
  intros Hdt Hns Hmean Hk Hk' n_bins leahy rms rms_err.
  subst leahy rms rms_err.
  unfold leahy_normalization, rms_normalization, rms_err_normalization.
  rewrite !(nth_map_in_range _ _ _ 0%Q) by assumption.
  split; [auto |].
  intros Hint.
  assert (Hden : (inject_Z n_bins == (1 / dt) * inject_Z num_seconds)%Q).
  { subst n_bins. rewrite inject_Z_mult, Hint. apply Qmult_comm. }
  rewrite Hden. repeat split; reflexivity.
Qed.

Lemma normalization_formulas_witness :
  (0 < 1 # 4)%Q /\ 0 < 2 /\ ~ (3 == 0)%Q /\
  (inject_Z (py_int (1 / (1 # 4))) == 1 / (1 # 4))%Q /\
  (nth 0 (leahy_normalization (1 # 4) 2 3 [5]) 0
   == 2 * nth 0 [5] 0 * (1 # 4) / inject_Z (2 * py_int (1 / (1 # 4))) / 3)%Q.
Proof.
  assert (H1 : (0 < 1 # 4)%Q) by reflexivity.
  assert (H2 : 0 < 2) by lia.
  assert (H3 : ~ (3 == 0)%Q) by discriminate.
  assert (H4 : (0 < length [5%Q])%nat) by (cbn; lia).
  assert (H5 : (inject_Z (py_int (1 / (1 # 4))) == 1 / (1 # 4))%Q)
    by reflexivity.
  split; [exact H1 |]. split; [exact H2 |]. split; [exact H3 |].
  split; [exact H5 |].
  exact (proj1 (proj2 (normalization_formulas (1 # 4) 2 3 [5%Q] [5%Q] 0
                         H1 H2 H3 H4 H4) H5)).
Defined.

(** With [dt = 0.4] and two-second segments, [n_bins = 2 * int(2.5) = 4]
    while the code divides by [2.5 * 2 = 5]. *)
Lemma leahy_denominator_not_n_bins :
  ~ (nth 0 (leahy_normalization (2 # 5) 2 1 [5]) 0
     == 2 * nth 0 [5] 0 * (2 # 5) / inject_Z (2 * py_int (1 / (2 # 5))) / 1)%Q.
Proof. intros H. vm_compute in H. discriminate H. Qed.

(** ** The checks at the top of [main] *)

Lemma power_of_two_loop_spec (n : Z) (fuel : nat) : forall i,
  1 <= i <= 31 -> 31 - i < Z.of_nat fuel ->
  exists j,
    power_of_two_loop fuel (2 ^ i) n = Ok (2 ^ j) /\
    i <= j <= 31 /\
    (n <= 2 ^ j \/ j = 31) /\
    (i < j -> 2 ^ (j - 1) < n).
Proof.
  induction fuel as [| fuel IH]; intros i Hi Hfuel; [lia |].
  cbn [power_of_two_loop]. change 2147483648 with (2 ^ 31).
  destruct (Z.ltb_spec (2 ^ i) n) as [Hlt | Hge]; cbn [andb].
  - destruct (Z.ltb_spec (2 ^ i) (2 ^ 31)) as [Hlt' | Hge'].
    + apply Z.pow_lt_mono_r_iff in Hlt'; [| lia | lia].
      replace (2 ^ i * 2) with (2 ^ (i + 1))
        by (rewrite Z.pow_add_r by lia; reflexivity).
      destruct (IH (i + 1)) as (j & Hj & Hij & Hup & Hlow); [lia | lia |].
      exists j. repeat split; try lia; auto.
      intros _. destruct (Z.eq_dec j (i + 1)) as [-> | Hne].
      * now replace (i + 1 - 1) with i by lia.
      * apply Hlow. lia.
    + exists i. repeat split; try lia.
      right. apply Z.pow_le_mono_r_iff in Hge'; lia.
  - exists i. repeat split; try lia.
Qed.

(** [power_of_two] always returns, and says [True] exactly on
    [1, 2, 4, ..., 2^31]. *)
Lemma power_of_two_spec (n : Z) :
  exists b, power_of_two n = Ok b /\
            (b = true <-> exists k, 0 <= k <= 31 /\ n = 2 ^ k).
Proof.
  unfold power_of_two. destruct (Z.eqb_spec n 1) as [-> | Hn1].
  - exists true. split; [reflexivity |]. split; [| reflexivity].
    intros _. exists 0. split; [lia | reflexivity].
  - destruct (power_of_two_loop_spec n power_of_two_fuel 1)
      as (j & Hj & Hij & Hup & Hlow); [lia | cbn; lia |].
    change (2 ^ 1) with 2 in Hj. rewrite Hj. cbn [bind].
    eexists. split; [reflexivity |]. rewrite Z.eqb_eq. split.
    + intros ->. exists j. split; [lia | reflexivity].
    + intros (k & Hk & ->).
      assert (Hk1 : k <> 0) by (intros ->; now apply Hn1).
      assert (Hle : k <= j).
      { destruct Hup as [Hup | ->]; [| lia].
        apply Z.pow_le_mono_r_iff in Hup; lia. }
      destruct (Z.eq_dec j 1) as [-> | Hj1].
      * f_equal. lia.
      * assert (H : 2 ^ (j - 1) < 2 ^ k) by (apply Hlow; lia).
        apply Z.pow_lt_mono_r_iff in H; [| lia | lia].
        f_equal. lia.
Qed.

Lemma idiot_checks_cases (num_seconds : Z) (rebin_const : Q) :
  (accepted_seconds num_seconds /\ (1 <= rebin_const)%Q /\
   idiot_checks num_seconds rebin_const = Ok tt) \/
  (~ (accepted_seconds num_seconds /\ (1 <= rebin_const)%Q) /\
   idiot_checks num_seconds rebin_const = Raise AssertionError).
Proof.
  unfold idiot_checks, accepted_seconds.
  destruct (Z.ltb_spec 0 num_seconds) as [Hpos | Hneg]; cbn [py_assert bind].
  - destruct (Qle_bool 1 rebin_const) eqn:Hc; cbn [bind].
    + apply Qle_bool_iff in Hc.
      destruct (power_of_two_spec num_seconds) as (b & -> & Hb). cbn [bind].
      destruct b; cbn [py_assert].
      * left. repeat split; auto. now apply Hb.
      * right. split; [| reflexivity].
        intros ((_ & Hk) & _). apply Hb in Hk. discriminate Hk.
    + right. split; [| reflexivity].
      intros (_ & Hc'). apply Qle_bool_iff in Hc'. congruence.
  - right. split; [| reflexivity]. intros ((Hpos & _) & _). lia.
Qed.

(** C7 (amended).  Before any data is read, [main] stops with an
    [AssertionError] unless the segment duration is positive and a power of
    two (at most [2^31]) and the re-bin constant is at least 1; no check looks
    at [dt] or at [n_bins], and when the three checks pass none fires. *)
Theorem idiot_checks_guard (num_seconds : Z) (rebin_const : Q) :
  (idiot_checks num_seconds rebin_const = Ok tt <->
   accepted_seconds num_seconds /\ (1 <= rebin_const)%Q) /\
  (idiot_checks num_seconds rebin_const = Ok tt \/
   forall math_sqrt fft_power fuel fits_data,
     main math_sqrt fft_power fuel fits_data num_seconds rebin_const
     = Raise AssertionError).
Proof.
  destruct (idiot_checks_cases num_seconds rebin_const)
    as [(Ha & Hc & Hok) | (Hno & Hraise)].
  - split; [| now left]. split; auto.
  - split.
    + rewrite Hraise. split; [discriminate | intros H; now apply Hno in H].
    + right. intros math_sqrt fft_power fuel fits_data.
      unfold main. now rewrite Hraise.
Qed.

(** Two-second segments sampled every third of a second give [n_bins = 6],
    not a power of two, and the checks pass. *)
Lemma n_bins_not_checked :
  ~ ((2 <= 0 \/
      ~ (exists k, 0 <= k /\ 2 * py_round (1 / (1 # 3)) = 2 ^ k) \/
      ((1 # 3) <= 0)%Q) ->
     idiot_checks 2 (3 # 2) = Raise AssertionError).
Proof.
  intros H.
  assert (Hok : idiot_checks 2 (3 # 2) = Ok tt) by reflexivity.
  rewrite Hok in H. enough (Ok tt = Raise AssertionError) by discriminate.
  apply H. right. left. intros (k & Hk & E).
  change (2 * py_round (1 / (1 # 3))) with 6 in E.
  destruct (Z.le_gt_cases 3 k) as [Hbig | Hsmall].
  - assert (H8 : 2 ^ 3 <= 2 ^ k) by (apply Z.pow_le_mono_r; lia).
    change (2 ^ 3) with 8 in H8. lia.
  - assert (Hcase : k = 0 \/ k = 1 \/ k = 2) by lia.
    destruct Hcase as [-> | [-> | ->]]; discriminate E.
Qed.

(** ** The segment loop *)

Section SegmentLoop.

Variable fft_power : list Q -> list Q.
Variable rates : list Q.
Variable n_bins : Z.
Hypothesis n_bins_pos : 0 < n_bins.

Local Abbreviation len := (Z.of_nat (length rates)).
Local Abbreviation left_of := (windows_left rates n_bins).

Lemma segment_loop_count (fuel : nat) : forall st,
  left_of st <= Z.of_nat fuel ->
  exists st',
    segment_loop fft_power rates n_bins fuel st = Ok st' /\
    num_segments st' = num_segments st + left_of st.
Proof.
  unfold windows_left.
  induction fuel as [| fuel IH]; intros st Hfuel; cbn [segment_loop];
    destruct (Z.ltb_spec (seg_j st) len) as [Hlt | Hge].
  - assert (1 <= (len - seg_j st + n_bins - 1) / n_bins)
      by (apply Z.div_le_lower_bound; lia).
    lia.
  - assert ((len - seg_j st + n_bins - 1) / n_bins < 1)
      by (apply Z.div_lt_upper_bound; lia).
    exists st. split; [reflexivity | lia].
  - assert (Hq : 1 <= (len - seg_j st + n_bins - 1) / n_bins)
      by (apply Z.div_le_lower_bound; lia).
    match goal with
    | |- exists st', segment_loop _ _ _ _ ?s = _ /\ _ => set (st1 := s)
    end.
    assert (Hstep : (len - seg_j st1 + n_bins - 1) / n_bins
                    = (len - seg_j st + n_bins - 1) / n_bins - 1).
    { subst st1. cbn [seg_j].
      replace (len - (seg_j st + n_bins) + n_bins - 1)
        with (len - seg_j st + n_bins - 1 + -1 * n_bins) by lia.
      rewrite Z.div_add by lia. lia. }
    destruct (IH st1) as (st' & Hloop & Hnum); [lia |].
    exists st'. split; [exact Hloop |].
    rewrite Hnum, Hstep. subst st1. cbn [num_segments]. lia.
  - assert ((len - seg_j st + n_bins - 1) / n_bins < 1)
      by (apply Z.div_lt_upper_bound; lia).
    exists st. split; [reflexivity | lia].
Qed.

(** From the initial state the loop walks [(len - 1) // n_bins] windows: a
    final window that ends exactly at the last row is not walked. *)
Lemma segment_loop_from_init :
  exists st,
    segment_loop fft_power rates n_bins (length rates) (segment_init n_bins)
      = Ok st /\
    num_segments st = Z.max 0 ((len - 1) / n_bins).
Proof.
  assert (Hle : (len - 1) / n_bins <= len).
  { destruct (Z.le_gt_cases len 0) as [H0 | H0].
    - assert ((len - 1) / n_bins < 0)
        by (apply Z.div_lt_upper_bound; lia). lia.
    - assert ((len - 1) / n_bins <= len - 1)
        by (apply Z.div_le_upper_bound; nia). lia. }
  destruct (segment_loop_count (length rates) (segment_init n_bins))
    as (st & Hloop & Hnum).
  - unfold windows_left. cbn [segment_init seg_j].
    replace (len - n_bins + n_bins - 1) with (len - 1) by lia. lia.
  - exists st. split; [exact Hloop |].
    rewrite Hnum. unfold windows_left. cbn [segment_init seg_j num_segments].
    replace (len - n_bins + n_bins - 1) with (len - 1) by lia. lia.
Qed.

End SegmentLoop.

(** C2 (the code departs from it).  Eight rows and [n_bins = 4] hold two full
    windows, [8 // 4 = 2]; the loop, whose test is [j < len], walks one and
    leaves rows 4 to 7 out. *)
Theorem last_full_window_dropped (fft_power : list Q -> list Q) :
  exists st,
    segment_loop fft_power [1; 2; 3; 4; 5; 6; 7; 8]%Q 4 8 (segment_init 4)
      = Ok st /\
    num_segments st = 1 /\ seg_i st = 4 /\ seg_j st = 8 /\ 8 / 4 = 2.
Proof.
  eexists. split; [cbn; reflexivity |]. cbn. auto.
Qed.

(** ** No full segment *)

Lemma getitem_nth {A : Type} (l : list A) (i : nat) (d : A) :
  (i < length l)%nat -> getitem l (Z.of_nat i) = Ok (nth i l d).
Proof.
  intros Hi.
  destruct (getitem_in_range l (Z.of_nat i)) as (x & Hx & Hnth); [lia |].
  rewrite Nat2Z.id in Hnth. rewrite Hx. f_equal.
  symmetry. now apply nth_error_nth.
Qed.

(** Every iteration counts one segment: a run that ends with the count it
    started from has not iterated. *)
Lemma segment_loop_counts_up (fft_power : list Q -> list Q) (rates : list Q)
    (n_bins : Z) (fuel : nat) : forall st st',
  segment_loop fft_power rates n_bins fuel st = Ok st' ->
  num_segments st <= num_segments st' /\
  (num_segments st' = num_segments st -> st' = st).
Proof.
  induction fuel as [| fuel IH]; intros st st'; cbn [segment_loop];
    destruct (seg_j st <? Z.of_nat (length rates)); try discriminate.
  - intros H. injection H as <-. split; [lia | reflexivity].
  - intros H. apply IH in H. cbn [num_segments] in H. lia.
  - intros H. injection H as <-. split; [lia | reflexivity].
Qed.

(** C5 (amended).  When the segment loop ends with [num_segments == 0],
    [main] stops with the [ZeroDivisionError] of the division by
    [float(num_segments)]: it does divide by zero, and returns no spectrum. *)
Theorem zero_segments_raise (math_sqrt : Q -> Q) (fft_power : list Q -> list Q)
    (fuel : nat) (fits_data : list (Q * Q)) (num_seconds : Z)
    (rebin_const : Q) (st : segment_state) :
  idiot_checks num_seconds rebin_const = Ok tt ->
  (2 <= length fits_data)%nat ->
  let dt := (fst (nth 1 fits_data (0, 0)) - fst (nth 0 fits_data (0, 0)))%Q in
  let n_bins := num_seconds * py_int (1 / dt) in
  ~ (dt == 0)%Q ->
  segment_loop fft_power (map snd fits_data) n_bins fuel (segment_init n_bins)
    = Ok st ->
  num_segments st = 0 ->
  main math_sqrt fft_power fuel fits_data num_seconds rebin_const
    = Raise ZeroDivisionError.
Proof.
  intros Hchecks Hrows dt n_bins Hdt Hloop Hzero.
  assert (Hst : st = segment_init n_bins).
  { apply (segment_loop_counts_up _ _ _ _ _ _ Hloop). exact Hzero. }
  subst st.
  assert (Hshort : Z.of_nat (length fits_data) <= n_bins).
  { destruct fuel; cbn [segment_loop segment_init seg_j] in Hloop;
      rewrite length_map in Hloop;
      destruct (Z.ltb_spec n_bins (Z.of_nat (length fits_data)));
      try discriminate Hloop; try lia.
    apply segment_loop_counts_up in Hloop. cbn [num_segments] in Hloop. lia. }
  unfold main. rewrite Hchecks. cbn [bind].
  assert (G1 : getitem fits_data 1 = Ok (nth 1 fits_data (0, 0)%Q))
    by (apply (getitem_nth fits_data 1); lia).
  assert (G0 : getitem fits_data 0 = Ok (nth 0 fits_data (0, 0)%Q))
    by (apply (getitem_nth fits_data 0); lia).
  rewrite G1. cbn [bind]. rewrite G0.
  cbn [bind]. fold dt.
  unfold int_inverse.
  assert (E : Qeq_bool dt 0 = false).
  { destruct (Qeq_bool dt 0) eqn:E; [| reflexivity].
    apply Qeq_bool_iff in E. contradiction. }
  rewrite E. cbn [bind]. fold n_bins. rewrite Hloop. cbn [bind].
  cbn [segment_init power_avg num_segments].
  destruct (py_range 0 n_bins) as [| k ks] eqn:Hrange.
  - apply (f_equal (@length Z)) in Hrange.
    rewrite py_range_length in Hrange. cbn in Hrange. lia.
  - reflexivity.
Qed.

Lemma zero_segments_raise_witness :
  idiot_checks 4 (3 # 2) = Ok tt /\
  (2 <= length [(0, 1); (1, 2); (2, 3)]%Q)%nat /\
  segment_loop (fun x => x) (map snd [(0, 1); (1, 2); (2, 3)]%Q) 4 3
    (segment_init 4) = Ok (segment_init 4) /\
  main exact_sqrt (fun x => x) 3 [(0, 1); (1, 2); (2, 3)]%Q 4 (3 # 2)
    = Raise ZeroDivisionError.
Proof.
  assert (H1 : idiot_checks 4 (3 # 2) = Ok tt) by reflexivity.
  assert (H2 : (2 <= length [(0, 1); (1, 2); (2, 3)]%Q)%nat) by (cbn; lia).
  assert (H3 : segment_loop (fun x => x)
                 (map snd [(0, 1); (1, 2); (2, 3)]%Q) 4 3 (segment_init 4)
               = Ok (segment_init 4)) by reflexivity.
  split; [exact H1 |]. split; [exact H2 |]. split; [exact H3 |].
  refine (zero_segments_raise exact_sqrt (fun x => x) 3
            [(0, 1); (1, 2); (2, 3)]%Q 4 (3 # 2) (segment_init 4)
            H1 H2 _ H3 _).
  - discriminate.
  - reflexivity.
Defined.

(** Three rows, four-second segments: the run ends in a division by zero. *)
Lemma zero_segments_divide_by_zero :
  ~ (forall math_sqrt fft_power,
       main math_sqrt fft_power 3 [(0, 1); (1, 2); (2, 3)]%Q 4 (3 # 2)
       <> Raise ZeroDivisionError).
Proof.
  intros H. apply (H exact_sqrt (fun x => x)). reflexivity.
Qed.

(** ** The periodogram of one segment *)

Module PeriodogramFacts.

Import Periodogram.
Local Open Scope R_scope.

Lemma Rsum_shift (m : R) (l : list R) :
  Rsum (map (fun x => x - m) l) = Rsum l - INR (length l) * m.
Proof.
  induction l as [| x l IH].
  - cbn. ring.
  - cbn [map Rsum fold_right length]. fold (Rsum (map (fun x => x - m) l)).
    fold (Rsum l). rewrite IH, S_INR. ring.
Qed.

Lemma Rsum_sub_mean (rate : list R) :
  rate <> [] -> Rsum (rate_sub_mean rate) = 0.
Proof.
  intros Hne. unfold rate_sub_mean, np_mean. rewrite Rsum_shift.
  assert (Hlen : INR (length rate) <> 0).
  { apply not_0_INR. destruct rate; [contradiction | discriminate]. }
  field. exact Hlen.
Qed.

Lemma map_snd_combine_seq (x : list R) : forall start,
  map snd (combine (seq start (length x)) x) = x.
Proof.
  induction x as [| a x IH]; intros start; cbn; [reflexivity |].
  now rewrite IH.
Qed.

Lemma Rsum_zeros {A : Type} (g : A -> R) (l : list A) :
  (forall a, g a = 0) -> Rsum (map g l) = 0.
Proof.
  intros Hg. induction l as [| a l IH]; [reflexivity |].
  cbn [map Rsum fold_right]. fold (Rsum (map g l)). rewrite IH, Hg. ring.
Qed.

Lemma fft_bin_0 (x : list R) : fft_bin x 0 = (Rsum x, 0).
Proof.
  unfold fft_bin. f_equal.
  - transitivity (Rsum (map snd (combine (seq 0 (length x)) x)));
      [| now rewrite map_snd_combine_seq].
    f_equal. apply map_ext. intros [j xj]. cbn [fst snd INR].
    replace (2 * PI * INR j * 0 / INR (length x)) with 0
      by (unfold Rdiv; ring).
    rewrite cos_0. ring.
  - apply Rsum_zeros. intros [j xj]. cbn [fst snd INR].
    replace (2 * PI * INR j * 0 / INR (length x)) with 0
      by (unfold Rdiv; ring).
    rewrite sin_0. ring.
Qed.

End PeriodogramFacts.

(** C9.  In exact arithmetic the power of a segment at DFT bin 0 is zero:
    the mean-subtracted rates sum to zero. *)
Theorem dc_power_zero (rate : list R) :
  rate <> [] -> hd_error (Periodogram.power_segment rate) = Some 0%R.
Proof.
  intros Hne. unfold Periodogram.power_segment, Periodogram.fft.
  assert (Hlen : length (Periodogram.rate_sub_mean rate) = length rate)
    by (unfold Periodogram.rate_sub_mean; apply length_map).
  destruct rate as [| r rate]; [contradiction |].
  rewrite Hlen. cbn [length seq map hd_error].
  rewrite PeriodogramFacts.fft_bin_0, PeriodogramFacts.Rsum_sub_mean
    by discriminate.
  unfold Periodogram.absolute. cbn [fst snd].
  rewrite Rmult_0_l, Rplus_0_l, sqrt_0. f_equal. ring.
Qed.

Lemma dc_power_zero_witness :
  [1; 2; 3; 4]%R <> [] /\
  hd_error (Periodogram.power_segment [1; 2; 3; 4]%R) = Some 0%R.
Proof.
  assert (H : [1; 2; 3; 4]%R <> []) by discriminate.
  split; [exact H | exact (dc_power_zero [1; 2; 3; 4]%R H)].
Defined.

(** * Further properties of the code *)

(** ** power_of_two *)

(** X1.  [power_of_two] always returns, and answers [True] exactly on the
    powers of two from [1] to [2^31]: zero, negative numbers and the powers
    of two beyond [2^31] are refused. *)
Theorem power_of_two_exact (n : Z) :
  (power_of_two n = Ok true \/ power_of_two n = Ok false) /\
  (power_of_two n = Ok true <-> exists k, 0 <= k <= 31 /\ n = 2 ^ k) /\
  (n <= 0 \/ 2 ^ 31 < n -> power_of_two n = Ok false).
Proof.
  destruct (power_of_two_spec n) as (b & Hb & Hiff).
  assert (Hchar : power_of_two n = Ok true <->
                  exists k, 0 <= k <= 31 /\ n = 2 ^ k).
  { rewrite Hb. split.
    - intros H. injection H as ->. now apply Hiff.
    - intros H. apply Hiff in H. now subst b. }
  repeat split; try apply Hchar.
  - rewrite Hb. destruct b; auto.
  - intros Hout. rewrite Hb. destruct b; [| reflexivity].
    exfalso. destruct (proj1 Hiff eq_refl) as (k & Hk & ->).
    assert (Hpos : 0 < 2 ^ k) by (apply Z.pow_pos_nonneg; lia).
    assert (Hle : 2 ^ k <= 2 ^ 31) by (apply Z.pow_le_mono_r; lia).
    lia.
Qed.

(** ** The normalisations *)

(** X2.  The fractional-rms power is the Leahy power divided by the mean
    rate, less [2 / mean_rate_whole]: the check kept as a comment in [main]. *)
Theorem rms_from_leahy (dt : Q) (num_seconds : Z) (mean_rate_whole : Q)
    (power_avg : list Q) (k : nat) :
  ~ (mean_rate_whole == 0)%Q -> (k < length power_avg)%nat ->
  (nth k (rms_normalization dt num_seconds mean_rate_whole power_avg) 0
   == nth k (leahy_normalization dt num_seconds mean_rate_whole power_avg) 0
      / mean_rate_whole - 2 / mean_rate_whole)%Q.
Proof.
  intros Hmean Hk.
  unfold rms_normalization, leahy_normalization.
  rewrite !(nth_map_in_range _ _ _ 0%Q) by assumption.
  generalize (2 * nth k power_avg 0 * dt
              / (1 / dt * inject_Z num_seconds))%Q.
  intros a. field. exact Hmean.
Qed.

Lemma rms_from_leahy_witness :
  ~ (3 == 0)%Q /\ (0 < length [5; 7]%Q)%nat /\
  (nth 0 (rms_normalization (1 # 4) 2 3 [5; 7]) 0
   == nth 0 (leahy_normalization (1 # 4) 2 3 [5; 7]) 0 / 3 - 2 / 3)%Q.
Proof.
  assert (H1 : ~ (3 == 0)%Q) by discriminate.
  assert (H2 : (0 < length [5; 7]%Q)%nat) by (cbn; lia).
  split; [exact H1 |]. split; [exact H2 |].
  exact (rms_from_leahy (1 # 4) 2 3 [5; 7]%Q 0 H1 H2).
Defined.

(** ** The geometric re-binner *)

Lemma Qfloor_unit_interval (y : Q) : (0 <= y)%Q -> (y < 1)%Q -> Qfloor y = 0.
Proof.
  intros H0 H1.
  pose proof (Qfloor_le y) as Hlow.
  pose proof (Qlt_floor y) as Hup.
  assert (Hlt : (inject_Z (Qfloor y) < inject_Z 1)%Q)
    by (eapply Qle_lt_trans; [exact Hlow | exact H1]).
  assert (Hgt : (inject_Z 0 < inject_Z (Qfloor y + 1))%Q)
    by (eapply Qle_lt_trans; [exact H0 | exact Hup]).
  rewrite <- Zlt_Qlt in Hlt, Hgt. lia.
Qed.

Lemma py_round_small (x : Q) :
  (- (1 # 2) < x)%Q -> (x < 1 # 2)%Q -> py_round x = 0.
Proof.
  intros Hlow Hup. unfold py_round.
  destruct (Qle_bool 0 x) eqn:E.
  - apply Qle_bool_iff in E. apply Qfloor_unit_interval.
    + apply Qle_trans with x; [exact E |].
      rewrite <- (Qplus_0_r x) at 1. apply Qplus_le_r. discriminate.
    + unfold Qlt, Qle in *. cbn in *. lia.
  - unfold Qceiling. rewrite Qfloor_unit_interval; [reflexivity | |].
    + assert (Hneg : ~ (0 <= x)%Q)
        by (intros H; apply Qle_bool_iff in H; congruence).
      unfold Qlt, Qle in *. cbn in *. lia.
    + unfold Qlt, Qle in *. cbn in *. lia.
Qed.

(** X3.  A re-bin constant strictly between [-1/2] and [1/2] rounds to a
    zero increment: the second iteration has an empty group and the function
    stops with [ZeroDivisionError] (two bins or more, lists long enough). *)
Theorem small_rebin_const_divides_by_zero (math_sqrt : Q -> Q)
    (rms err freq : list Q) (c : Q) (L : Z) (fuel : nat) :
  2 <= L ->
  L <= Z.of_nat (length rms) -> L <= Z.of_nat (length err) ->
  L <= Z.of_nat (length freq) ->
  (- (1 # 2) < c)%Q -> (c < 1 # 2)%Q -> (2 <= fuel)%nat ->
  geometric_rebinning math_sqrt rms err freq c L fuel
    = Raise ZeroDivisionError.
Proof.
  intros HL Hr He Hf Hlow Hup Hfuel.
  destruct fuel as [| [| fuel]]; try lia.
  unfold geometric_rebinning. cbn [rebin_loop rebin_init current_m].
  destruct (Z.ltb_spec 1 L) as [_ | Hbad]; [| lia].
  destruct (rebin_entry_ok math_sqrt rms err freq L Hr He Hf 0 1)
    as ([[f p] e] & Hentry); [lia | lia |].
  rewrite (rebin_step_ok math_sqrt rms err freq c rebin_init f p e Hentry).
  cbn [bind current_m rebin_init real_index].
  assert (Hround : py_round (1 * c) = 0).
  { apply py_round_small; rewrite Qmult_1_l; assumption. }
  rewrite Hround. change (1 + 0) with 1.
  destruct (Z.ltb_spec 1 L) as [_ | Hbad]; [| lia].
  erewrite rebin_step_raise; [reflexivity |].
  cbn [prev_m current_m]. apply rebin_entry_empty.
Qed.

Lemma small_rebin_const_divides_by_zero_witness :
  2 <= 3 /\ (- (1 # 2) < 1 # 4)%Q /\ (1 # 4 < 1 # 2)%Q /\ (2 <= 3)%nat /\
  geometric_rebinning exact_sqrt [10; 20; 30]%Q [1; 2; 3]%Q [0; 1; 2]%Q
    (1 # 4) 3 3 = Raise ZeroDivisionError.
Proof.
  assert (H1 : 2 <= 3) by lia.
  assert (Hlen : 3 <= Z.of_nat 3) by (cbn; lia).
  assert (H2 : (- (1 # 2) < 1 # 4)%Q) by reflexivity.
  assert (H3 : (1 # 4 < 1 # 2)%Q) by reflexivity.
  assert (H4 : (2 <= 3)%nat) by lia.
  split; [exact H1 |]. split; [exact H2 |]. split; [exact H3 |].
  split; [exact H4 |].
  exact (small_rebin_const_divides_by_zero exact_sqrt [10; 20; 30]%Q
           [1; 2; 3]%Q [0; 1; 2]%Q (1 # 4) 3 3 H1 Hlen Hlen Hlen H2 H3 H4).
Defined.

(** X4.  With at most one bin the re-binner returns three empty lists,
    whatever the constant and the lists; with two bins or more (constant at
    least 1, lists long enough) its first entry is bin 0 itself:
    [(freq[0], rms[0], sqrt(rms_err[0]^2) / 1)]. *)
Theorem rebin_empty_or_dc_first (math_sqrt : Q -> Q) (rms err freq : list Q)
    (c : Q) (L : Z) :
  (L <= 1 -> forall fuel,
     geometric_rebinning math_sqrt rms err freq c L fuel = Ok ([], [], [])) /\
  (2 <= L ->
   L <= Z.of_nat (length rms) -> L <= Z.of_nat (length err) ->
   L <= Z.of_nat (length freq) ->
   (1 <= c)%Q ->
   forall fuel, L - 1 <= Z.of_nat fuel ->
   exists f p e e0,
     geometric_rebinning math_sqrt rms err freq c L fuel = Ok (f, p, e) /\
     f <> [] /\
     hd_error f = nth_error freq 0 /\
     hd_error p = nth_error rms 0 /\
     nth_error err 0 = Some e0 /\
     hd_error e = Some (math_sqrt (0 + e0 ^ 2) / inject_Z 1)%Q).
Proof.
  split.
  - intros HL fuel. unfold geometric_rebinning.
    destruct fuel; cbn [rebin_loop rebin_init current_m];
      destruct (Z.ltb_spec 1 L); try lia; reflexivity.
  - intros HL Hr He Hf Hc fuel Hfuel.
    destruct (geometric_rebinning_total math_sqrt rms err freq c L fuel)
      as ([[f p] e] & Hout); auto.
    destruct (geometric_rebinning_entries _ _ _ _ _ _ _ _ _ _ Hout)
      as (es & Hes & -> & -> & ->).
    destruct (rebin_entry_unit math_sqrt rms err freq L Hr He Hf 0)
      as (f0 & r0 & e0 & Hf0 & Hr0 & He0 & Hentry); [lia | lia |].
    destruct fuel as [| fuel]; [lia |].
    unfold rebin_groups in Hes. cbn [group_trace] in Hes.
    destruct (Z.ltb_spec 1 L) as [_ | Hbad]; [| lia].
    unfold group_entries in Hes. cbn [map_outcome fst snd] in Hes.
    change (0 + 1) with 1 in Hentry. rewrite Hentry in Hes. cbn [bind] in Hes.
    destruct (map_outcome _ _) as [es' | |]; cbn [bind] in Hes;
      try discriminate Hes.
    injection Hes as <-.
    exists (map (fun t => fst (fst t))
                ((f0, r0, (math_sqrt (0 + e0 ^ 2) / inject_Z 1)%Q) :: es')).
    eexists. eexists. exists e0.
    split; [exact Hout |].
    change (Z.to_nat 0) with 0%nat in Hf0, Hr0, He0.
    cbn [map hd_error fst snd]. rewrite Hf0, Hr0.
    repeat split; auto. discriminate.
Qed.

Lemma rebin_empty_or_dc_first_witness :
  1 <= 1 /\
  geometric_rebinning exact_sqrt [10; 20]%Q [1; 2]%Q [0; 1]%Q (3 # 2) 1 0
    = Ok ([], [], []).
Proof.
  assert (H : 1 <= 1) by lia.
  split; [exact H |].
  exact (proj1 (rebin_empty_or_dc_first exact_sqrt [10; 20]%Q [1; 2]%Q
                  [0; 1]%Q (3 # 2) 1) H 0%nat).
Defined.

Lemma py_range_empty (a : Z) : py_range a a = [].
Proof. unfold py_range. now rewrite Z.sub_diag. Qed.

Lemma py_range_app (a b : Z) (n : nat) : forall c,
  a <= b -> c = b + Z.of_nat n ->
  py_range a b ++ py_range b c = py_range a c.
Proof.
  induction n as [| n IH]; intros c Hab ->.
  - rewrite Z.add_0_r, py_range_empty. apply app_nil_r.
  - replace (b + Z.of_nat (S n)) with (b + Z.of_nat n + 1) by lia.
    rewrite !py_range_snoc by lia.
    rewrite app_assoc. f_equal. now apply IH.
Qed.

Lemma last_cons_default {A : Type} (l : list A) : forall x d d',
  last (x :: l) d = last (x :: l) d'.
Proof.
  induction l as [| y l IH]; intros x d d'; [reflexivity |].
  change (last (y :: l) d = last (y :: l) d'). apply IH.
Qed.

Lemma chained_cover (gs : list (Z * Z)) : forall s,
  chained s gs ->
  s <= last (map snd gs) s /\
  flat_map (fun g => py_range (fst g) (snd g)) gs
    = py_range s (last (map snd gs) s).
Proof.
  induction gs as [| [p q] gs IH]; intros s Hch.
  - cbn. split; [lia | now rewrite py_range_empty].
  - cbn in Hch. destruct Hch as (-> & Hpq & Hch).
    destruct (IH q Hch) as (Hle & Hcover).
    assert (Hlast : last (map snd ((s, q) :: gs)) s = last (map snd gs) q).
    { cbn [map snd]. destruct gs as [| g gs']; [reflexivity |].
      cbn [map].
      change (last (snd g :: map snd gs') s = last (snd g :: map snd gs') q).
      apply last_cons_default. }
    rewrite Hlast. split; [lia |].
    cbn [flat_map fst snd]. rewrite Hcover.
    apply (py_range_app s q (Z.to_nat (last (map snd gs) q - q))); lia.
Qed.

Lemma last_below (bound : Z) (l : list Z) (d : Z) :
  Forall (fun x => x < bound) l -> l <> [] -> last l d < bound.
Proof.
  induction l as [| x l IH]; intros Hall Hne; [contradiction |].
  inversion Hall as [| ? ? Hx Hl]; subst.
  destruct l as [| y l]; [exact Hx |].
  change (last (y :: l) d < bound). apply IH; [exact Hl | discriminate].
Qed.

(** X5.  For a constant of at least 1 the groups tile an initial stretch
    [0 .. m-1] of the bins, where [m] is the end of the last group and
    [m < length_of_list]: the last bin, [length_of_list - 1], belongs to no
    group, so it never enters a re-binned power. *)
Theorem rebin_groups_cover (c : Q) (L : Z) (fuel : nat) :
  (1 <= c)%Q ->
  let gs := rebin_groups c L fuel in
  let m := last (map snd gs) 0 in
  flat_map (fun g => py_range (fst g) (snd g)) gs = py_range 0 m /\
  0 <= m /\
  (gs <> [] -> m < L) /\
  ~ In (L - 1) (flat_map (fun g => py_range (fst g) (snd g)) gs).
Proof.
  intros Hc gs m.
  assert (Hch : chained 0 gs)
    by (apply chained_trace; [exact Hc | discriminate | lia]).
  destruct (chained_cover gs 0 Hch) as (Hle & Hcover). fold m in Hle, Hcover.
  assert (Hbelow : gs <> [] -> m < L).
  { intros Hne. apply last_below.
    - apply Forall_map. apply trace_below.
    - destruct gs; [contradiction | discriminate]. }
  repeat split; auto.
  rewrite Hcover. intros Hin. apply py_range_In in Hin.
  destruct gs as [| g gs'] eqn:E.
  - cbn in m. lia.
  - assert (m < L) by (apply Hbelow; discriminate). lia.
Qed.

Lemma rebin_groups_cover_witness :
  (1 <= 3 # 2)%Q /\
  flat_map (fun g => py_range (fst g) (snd g)) (rebin_groups (3 # 2) 8 8)
    = py_range 0 (last (map snd (rebin_groups (3 # 2) 8 8)) 0).
Proof.
  assert (H : (1 <= 3 # 2)%Q) by (unfold Qle; cbn; lia).
  split; [exact H |].
  exact (proj1 (rebin_groups_cover (3 # 2) 8 8 H)).
Defined.

(** What an entry that has been computed is made of. *)
Lemma rebin_entry_inv (math_sqrt : Q -> Q) (rms err freq : list Q) (p q : Z)
    (f pw er : Q) :
  rebin_entry math_sqrt rms err freq p q = Ok (f, pw, er) ->
  exists bp e2 fc fp,
    bin_sums rms err (py_range p q) 0%Q 0%Q = Ok (bp, e2) /\
    getitem freq q = Ok fc /\ getitem freq p = Ok fp /\
    Z.abs (q - p) <> 0 /\
    er = (math_sqrt e2 / inject_Z (Z.abs (q - p)))%Q /\
    ((Z.abs (q - p) = 1 /\ getitem rms p = Ok pw /\ f = fp) \/
     (Z.abs (q - p) <> 1 /\
      pw = (bp / inject_Z (Z.abs (q - p)))%Q /\
      f = ((fc - fp) / inject_Z (Z.abs (q - p)) + fp)%Q)).
Proof.
  unfold rebin_entry.
  destruct (bin_sums rms err (py_range p q) 0%Q 0%Q) as [[bp e2] | |];
    cbn [bind]; try discriminate.
  destruct (Z.eq_dec (Z.abs (q - p)) 0) as [Hz | Hnz].
  { rewrite Hz. cbn. discriminate. }
  rewrite float_div_nonzero by exact Hnz. cbn [bind].
  destruct (getitem freq q) as [fc | |]; cbn [bind]; try discriminate.
  destruct (getitem freq p) as [fp | |] eqn:Hfp; cbn [bind];
    try discriminate.
  destruct (Z.eqb_spec (Z.abs (q - p)) 1) as [H1 | H1].
  - destruct (getitem rms p) as [rp | |]; cbn [bind]; try discriminate.
    intros H. injection H as <- <- <-.
    exists bp, e2, fc, fp. repeat split; auto.
  - cbn [bind]. intros H. injection H as <- <- <-.
    exists bp, e2, fc, fp. repeat split; auto.
Qed.

Lemma getitem_In {A : Type} (l : list A) (i : Z) (x : A) :
  getitem l i = Ok x -> In x l.
Proof.
  unfold getitem. destruct (_ && _); [| discriminate].
  destruct (nth_error l _) as [y |] eqn:E; [| discriminate].
  intros H. injection H as <-. eapply nth_error_In. exact E.
Qed.

Lemma bin_sums_flat (rms err : list Q) (v : Q) :
  Forall (fun x => (x == v)%Q) rms ->
  forall ks a b bp e2,
    bin_sums rms err ks a b = Ok (bp, e2) ->
    (bp == a + inject_Z (Z.of_nat (length ks)) * v)%Q.
Proof.
  intros Hflat. induction ks as [| k ks IH]; intros a b bp e2; cbn [bin_sums].
  - intros H. injection H as <- <-. cbn. ring.
  - destruct (getitem rms k) as [p | |] eqn:Hp; cbn [bind]; try discriminate.
    destruct (getitem err k) as [e | |]; cbn [bind]; try discriminate.
    intros H. apply IH in H.
    assert (Hpv : (p == v)%Q).
    { apply getitem_In in Hp. rewrite Forall_forall in Hflat.
      now apply Hflat. }
    rewrite H, Hpv. cbn [length].
    replace (Z.of_nat (S (length ks))) with (Z.of_nat (length ks) + 1) by lia.
    rewrite inject_Z_plus. ring.
Qed.

Lemma flat_entries (math_sqrt : Q -> Q) (rms err freq : list Q) (v : Q) :
  Forall (fun x => (x == v)%Q) rms ->
  forall gs s es,
    chained s gs ->
    group_entries math_sqrt rms err freq gs = Ok es ->
    Forall (fun x => (x == v)%Q) (map (fun t => snd (fst t)) es).
Proof.
  intros Hflat. induction gs as [| [p q] gs IH]; intros s es Hch;
    unfold group_entries; cbn [map_outcome fst snd].
  - intros H. injection H as <-. constructor.
  - cbn in Hch. destruct Hch as (-> & Hpq & Hch).
    destruct (rebin_entry math_sqrt rms err freq s q) as [[[f pw] er] | |]
      eqn:Hentry; cbn [bind]; try discriminate.
    destruct (map_outcome _ gs) as [es' | |] eqn:Hrest; cbn [bind];
      try discriminate.
    intros H. injection H as <-. cbn [map fst snd]. constructor.
    + apply rebin_entry_inv in Hentry.
      destruct Hentry as (bp & e2 & fc & fp & Hsum & _ & _ & Hnz & _ & Hcase).
      destruct Hcase as [(_ & Hget & _) | (_ & -> & _)].
      * apply getitem_In in Hget. rewrite Forall_forall in Hflat.
        now apply Hflat.
      * apply (bin_sums_flat rms err v Hflat) in Hsum.
        rewrite py_range_length in Hsum.
        rewrite Z2Nat.id in Hsum by lia.
        rewrite Hsum. rewrite Z.abs_eq by lia.
        field. intros H0. unfold Qeq in H0. cbn in H0. lia.
    + apply (IH q es' Hch). exact Hrest.
Qed.

(** X6.  A flat spectrum stays flat: when every [rms_power_avg[k]] equals
    [v], every re-binned power equals [v] (constant at least 1). *)
Theorem flat_spectrum_stays_flat (math_sqrt : Q -> Q) (rms err freq : list Q)
    (c : Q) (L : Z) (fuel : nat) (v : Q) (f p e : list Q) :
  (1 <= c)%Q ->
  Forall (fun x => (x == v)%Q) rms ->
  geometric_rebinning math_sqrt rms err freq c L fuel = Ok (f, p, e) ->
  Forall (fun x => (x == v)%Q) p.
Proof.
  intros Hc Hflat Hout.
  destruct (geometric_rebinning_entries _ _ _ _ _ _ _ _ _ _ Hout)
    as (es & Hes & _ & -> & _).
  apply (flat_entries math_sqrt rms err freq v Hflat
           (rebin_groups c L fuel) 0 es); [| exact Hes].
  apply chained_trace; [exact Hc | discriminate | lia].
Qed.

Lemma flat_spectrum_stays_flat_witness :
  (1 <= 3 # 2)%Q /\
  Forall (fun x => (x == 7)%Q) [7; 7; 7; 7; 7]%Q /\
  geometric_rebinning exact_sqrt [7; 7; 7; 7; 7]%Q [1; 1; 1; 1; 1]%Q
    [0; 1; 2; 3; 4]%Q (3 # 2) 5 5
  = Ok ([0; 4 # 2], [7; 14 # 2], [1; 1 # 2])%Q /\
  Forall (fun x => (x == 7)%Q) [7; 14 # 2]%Q.
Proof.
  assert (H1 : (1 <= 3 # 2)%Q) by (unfold Qle; cbn; lia).
  assert (H2 : Forall (fun x => (x == 7)%Q) [7; 7; 7; 7; 7]%Q)
    by (repeat constructor).
  assert (H3 : geometric_rebinning exact_sqrt [7; 7; 7; 7; 7]%Q
                 [1; 1; 1; 1; 1]%Q [0; 1; 2; 3; 4]%Q (3 # 2) 5 5
               = Ok ([0; 4 # 2], [7; 14 # 2], [1; 1 # 2])%Q) by reflexivity.
  split; [exact H1 |]. split; [exact H2 |]. split; [exact H3 |].
  exact (flat_spectrum_stays_flat exact_sqrt [7; 7; 7; 7; 7]%Q
           [1; 1; 1; 1; 1]%Q [0; 1; 2; 3; 4]%Q (3 # 2) 5 5 7
           _ _ _ H1 H2 H3).
Defined.

Lemma getitem_map_range {B : Type} (g : Z -> B) (n k : Z) (x : B) :
  0 <= k -> getitem (map g (py_range 0 n)) k = Ok x -> x = g k.
Proof.
  intros Hk. unfold getitem.
  destruct (Z.ltb_spec k 0) as [Hneg | _]; [lia |].
  destruct (_ && _); [| discriminate].
  rewrite nth_error_map.
  destruct (nth_error (py_range 0 n) (Z.to_nat k)) as [i |] eqn:E;
    cbn [option_map]; [| discriminate].
  intros H. injection H as <-. f_equal.
  assert (Hlt : (Z.to_nat k < length (py_range 0 n))%nat)
    by (apply nth_error_Some; congruence).
  rewrite (nth_error_nth' _ 0 Hlt) in E. injection E as <-.
  rewrite py_range_length in Hlt.
  rewrite nth_py_range by exact Hlt. lia.
Qed.

Lemma inject_Z_minus (a b : Z) :
  (inject_Z (a - b) == inject_Z a - inject_Z b)%Q.
Proof. unfold Qeq, Qminus. cbn. lia. Qed.

Lemma uniform_entries (math_sqrt : Q -> Q) (rms err : list Q) (g : Z -> Q)
    (n : Z) (df : Q) :
  (forall k, (g k == inject_Z k * df)%Q) ->
  forall gs s es,
    0 <= s -> chained s gs ->
    group_entries math_sqrt rms err (map g (py_range 0 n)) gs = Ok es ->
    Forall2
      (fun grp x =>
         (x == inject_Z (if snd grp - fst grp =? 1 then fst grp
                         else fst grp + 1) * df)%Q)
      gs (map (fun t => fst (fst t)) es).
Proof.
  intros Hg. induction gs as [| [p q] gs IH]; intros s es Hs Hch;
    unfold group_entries; cbn [map_outcome fst snd].
  - intros H. injection H as <-. constructor.
  - cbn in Hch. destruct Hch as (-> & Hpq & Hch).
    destruct (rebin_entry math_sqrt rms err (map g (py_range 0 n)) s q)
      as [[[f pw] er] | |] eqn:Hentry; cbn [bind]; try discriminate.
    destruct (map_outcome _ gs) as [es' | |] eqn:Hrest; cbn [bind];
      try discriminate.
    intros H. injection H as <-. cbn [map fst snd]. constructor.
    + apply rebin_entry_inv in Hentry.
      destruct Hentry as (bp & e2 & fc & fp & _ & Hfc & Hfp & Hnz & _ & Hcase).
      apply getitem_map_range in Hfc; [| lia].
      apply getitem_map_range in Hfp; [| lia]. subst fc fp.
      rewrite Z.abs_eq in Hcase by lia. cbn [fst snd].
      destruct Hcase as [(H1 & _ & ->) | (H1 & _ & ->)].
      * rewrite H1. cbn. apply Hg.
      * destruct (Z.eqb_spec (q - s) 1); [contradiction |].
        rewrite !Hg, inject_Z_minus, inject_Z_plus.
        field. intros H0. rewrite <- inject_Z_minus in H0.
        unfold Qeq in H0. cbn in H0. lia.
    + apply (IH q es'); [lia | exact Hch | exact Hrest].
Qed.

(** X7.  On evenly spaced frequencies [freq[k] = k * df] (what [main]
    passes), a group [[prev_m, current_m)] of one bin is reported at
    [freq[prev_m]], and a group of two bins or more at [freq[prev_m] + df],
    the frequency of its second bin, whatever its width. *)
Theorem rebinned_frequency_uniform (math_sqrt : Q -> Q) (rms err : list Q)
    (g : Z -> Q) (n : Z) (df c : Q) (L : Z) (fuel : nat) (f p e : list Q) :
  (1 <= c)%Q ->
  (forall k, (g k == inject_Z k * df)%Q) ->
  geometric_rebinning math_sqrt rms err (map g (py_range 0 n)) c L fuel
    = Ok (f, p, e) ->
  Forall2
    (fun grp x =>
       (x == inject_Z (if snd grp - fst grp =? 1 then fst grp
                       else fst grp + 1) * df)%Q)
    (rebin_groups c L fuel) f.
Proof.
  intros Hc Hg Hout.
  destruct (geometric_rebinning_entries _ _ _ _ _ _ _ _ _ _ Hout)
    as (es & Hes & -> & _ & _).
  apply (uniform_entries math_sqrt rms err g n df Hg
           (rebin_groups c L fuel) 0 es); [lia | | exact Hes].
  apply chained_trace; [exact Hc | discriminate | lia].
Qed.

Lemma rebinned_frequency_uniform_witness :
  (1 <= 2)%Q /\
  (forall k, (inject_Z k * (1 # 4) == inject_Z k * (1 # 4))%Q) /\
  exists f p e,
    geometric_rebinning exact_sqrt [1; 2; 3; 4; 5; 6; 7; 8]%Q
      [1; 1; 1; 1; 1; 1; 1; 1]%Q
      (map (fun k => inject_Z k * (1 # 4))%Q (py_range 0 8)) 2 8 8
    = Ok (f, p, e) /\
    Forall2
      (fun grp x =>
         (x == inject_Z (if snd grp - fst grp =? 1 then fst grp
                         else fst grp + 1) * (1 # 4))%Q)
      (rebin_groups 2 8 8) f.
Proof.
  assert (H1 : (1 <= 2)%Q) by (unfold Qle; cbn; lia).
  assert (H2 : forall k, (inject_Z k * (1 # 4) == inject_Z k * (1 # 4))%Q)
    by (intros k; reflexivity).
  split; [exact H1 |]. split; [exact H2 |].
  do 3 eexists. split.
  - vm_compute. reflexivity.
  - exact (rebinned_frequency_uniform exact_sqrt [1; 2; 3; 4; 5; 6; 7; 8]%Q
             [1; 1; 1; 1; 1; 1; 1; 1]%Q
             (fun k => inject_Z k * (1 # 4))%Q 8 (1 # 4) 2 8 8 _ _ _
             H1 H2 eq_refl).
Defined.

(** ** The frequencies of [main] *)

Lemma bin_freq_hz_sign (n scale k : Z) :
  0 < n -> 0 < scale ->
  (0 <= k -> (0 <= bin_freq_hz n scale k)%Q) /\
  (k < 0 -> (bin_freq_hz n scale k < 0)%Q).
Proof.
  intros Hn Hs.
  assert (H0 : (bin_freq_hz n scale 0 == 0)%Q).
  { unfold bin_freq_hz. change (inject_Z 0) with 0%Q. ring. }
  split; intros Hk.
  - destruct (Z.eq_dec k 0) as [-> | Hne].
    + rewrite H0. discriminate.
    + rewrite <- H0. apply Qlt_le_weak, bin_freq_hz_mono; lia.
  - rewrite <- H0. apply bin_freq_hz_mono; lia.
Qed.

(** The cut of [main] for any number of bins: the largest frequency is at
    index [(n-1)//2]. *)
Lemma freq_hz_cut (n scale : Z) :
  0 < n -> 0 < scale ->
  let N := (n - 1) / 2 + 1 in
  max_index_of (map (bin_freq_hz n scale)
                    (py_range 0 N ++ py_range (- (n / 2)) 0))
    = Ok (N - 1) /\
  py_slice (map (bin_freq_hz n scale)
                (py_range 0 N ++ py_range (- (n / 2)) 0)) 0 (N - 1 + 1)
    = map (bin_freq_hz n scale) (py_range 0 N).
Proof.
  intros Hn Hs N.
  assert (HN : 1 <= N) by (subst N; pose proof (Z.div_pos (n - 1) 2); lia).
  set (f := bin_freq_hz n scale).
  assert (Hmono : forall k k', k < k' -> (f k < f k')%Q)
    by (intros k k' Hk; now apply bin_freq_hz_mono).
  assert (Hsplit : py_range 0 N = py_range 0 (N - 1) ++ [N - 1])
    by (rewrite <- py_range_snoc by lia; f_equal; lia).
  assert (Hhalf : 0 <= n / 2) by (apply Z.div_pos; lia).
  split.
  - rewrite Hsplit, <- app_assoc, map_app. cbn [app map].
    unfold max_index_of. rewrite py_max_first_largest.
    + cbn [bind]. rewrite list_index_first.
      * rewrite length_map, py_range_length. f_equal. lia.
      * intros x Hx. apply Qeq_bool_false_lt.
        apply in_map_iff in Hx. destruct Hx as (k & <- & Hk).
        apply py_range_In in Hk. apply Hmono. lia.
      * apply Qeq_bool_refl.
    + intros x Hx. apply in_map_iff in Hx. destruct Hx as (k & <- & Hk).
      apply py_range_In in Hk. apply Hmono. lia.
    + intros x Hx. apply in_map_iff in Hx. destruct Hx as (k & <- & Hk).
      apply py_range_In in Hk. apply Qlt_le_weak, Hmono. lia.
  - rewrite py_slice_prefix by lia. rewrite map_app.
    replace (Z.to_nat (N - 1 + 1)) with (length (map f (py_range 0 N)))
      by (rewrite length_map, py_range_length; lia).
    apply firstn_app_exact.
Qed.

(** X8.  For any number [n >= 1] of bins per segment, even or odd, and a
    positive scale, the cut keeps the first [(n-1)//2 + 1] bins, dropping
    the remaining [n//2]; the kept frequencies are all non-negative and the
    dropped ones all negative. *)
Theorem cut_keeps_nonnegative_frequencies (n scale : Z) :
  0 < n -> 0 < scale ->
  exists freq retained dropped idx,
    freq_hz n scale = Ok freq /\
    max_index_of freq = Ok idx /\
    retained = py_slice freq 0 (idx + 1) /\
    freq = retained ++ dropped /\
    length retained = Z.to_nat ((n - 1) / 2 + 1) /\
    length dropped = Z.to_nat (n / 2) /\
    Forall (fun x => (0 <= x)%Q) retained /\
    Forall (fun x => (x < 0)%Q) dropped.
Proof.
  intros Hn Hs.
  destruct (freq_hz_cut n scale Hn Hs) as (Hidx & Hcut).
  set (N := (n - 1) / 2 + 1) in *.
  exists (map (bin_freq_hz n scale) (py_range 0 N ++ py_range (- (n / 2)) 0)),
         (map (bin_freq_hz n scale) (py_range 0 N)),
         (map (bin_freq_hz n scale) (py_range (- (n / 2)) 0)),
         (N - 1).
  split; [apply freq_hz_bins; lia |].
  split; [exact Hidx |].
  split; [now rewrite Hcut |].
  split; [apply map_app |].
  split; [rewrite length_map, py_range_length; f_equal; lia |].
  split; [rewrite length_map, py_range_length; f_equal; lia |].
  split; apply Forall_forall; intros x Hx; apply in_map_iff in Hx;
    destruct Hx as (k & <- & Hk); apply py_range_In in Hk;
    apply bin_freq_hz_sign; lia.
Qed.

Lemma cut_keeps_nonnegative_frequencies_witness :
  0 < 5 /\ 0 < 2 /\
  exists freq idx, freq_hz 5 2 = Ok freq /\ max_index_of freq = Ok idx.
Proof.
  assert (H1 : 0 < 5) by lia.
  assert (H2 : 0 < 2) by lia.
  split; [exact H1 |]. split; [exact H2 |].
  destruct (cut_keeps_nonnegative_frequencies 5 2 H1 H2)
    as (freq & retained & dropped & idx & Hf & Hi & _).
  exists freq, idx. split; assumption.
Defined.

(** X9.  The frequency step is [1 / num_seconds]: with
    [n_bins = num_seconds * int(1/dt)] bins and the scale [int(1/dt)], bin
    [k] of the non-negative half has the frequency [k / num_seconds] Hz. *)
Theorem frequency_step (num_seconds inv : Z) :
  0 < num_seconds -> 0 < inv ->
  exists freq,
    freq_hz (num_seconds * inv) inv = Ok freq /\
    forall k, 0 <= k <= (num_seconds * inv - 1) / 2 ->
      (nth (Z.to_nat k) freq 0 == inject_Z k / inject_Z num_seconds)%Q.
Proof.
  intros Hns Hinv.
  assert (Hn : 0 < num_seconds * inv) by lia.
  eexists. split; [apply freq_hz_bins; lia |].
  intros k Hk.
  rewrite map_app, app_nth1
    by (rewrite length_map, py_range_length; lia).
  rewrite (nth_map_in_range _ _ _ 0) by (rewrite py_range_length; lia).
  rewrite nth_py_range by lia.
  replace (0 + Z.of_nat (Z.to_nat k)) with k by lia.
  unfold bin_freq_hz. rewrite inject_Z_mult.
  field. split; intros H0; unfold Qeq in H0; cbn in H0; lia.
Qed.

Lemma frequency_step_witness :
  0 < 4 /\ 0 < 8 /\
  exists freq, freq_hz (4 * 8) 8 = Ok freq /\
               (nth (Z.to_nat 3) freq 0 == inject_Z 3 / inject_Z 4)%Q.
Proof.
  assert (H1 : 0 < 4) by lia.
  assert (H2 : 0 < 8) by lia.
  split; [exact H1 |]. split; [exact H2 |].
  destruct (frequency_step 4 8 H1 H2) as (freq & Hf & Hk).
  exists freq. split; [exact Hf |]. apply Hk. cbn. lia.
Defined.

(** ** The segment loop, in full *)

Lemma py_slice_length {A : Type} (l : list A) (i j : Z) :
  0 <= i <= j -> j <= Z.of_nat (length l) ->
  length (py_slice l i j) = Z.to_nat (j - i).
Proof.
  intros Hij Hj. unfold py_slice, clip_index.
  destruct (Z.ltb_spec i 0) as [Hneg | _]; [lia |].
  destruct (Z.ltb_spec j 0) as [Hneg | _]; [lia |].
  rewrite length_firstn, length_skipn. lia.
Qed.

Section SegmentInvariant.

Variable fft_power : list Q -> list Q.
Hypothesis fft_power_length : forall l, length (fft_power l) = length l.
Variable rates : list Q.
Variable n_bins : Z.
Hypothesis n_bins_pos : 0 < n_bins.

Local Abbreviation rows := (Z.of_nat (length rates)).

Local Abbreviation invariant := (segment_invariant rates n_bins).

Lemma segment_invariant_init : invariant (segment_init n_bins).
Proof.
  unfold segment_invariant. cbn [segment_init num_segments seg_i seg_j
                                 power_avg rate].
  repeat split; try lia.
  rewrite length_map, py_range_length. f_equal. lia.
Qed.

Lemma segment_loop_invariant (fuel : nat) : forall st st',
  invariant st ->
  segment_loop fft_power rates n_bins fuel st = Ok st' ->
  invariant st' /\ rows <= seg_j st'.
Proof.
  induction fuel as [| fuel IH]; intros st st' Hinv; cbn [segment_loop];
    destruct (Z.ltb_spec (seg_j st) rows) as [Hlt | Hge]; try discriminate.
  - intros H. injection H as <-. auto.
  - apply IH.
    destruct Hinv as (Hnum & Hi & Hj & Hin & Hlen & Hrate).
    unfold segment_invariant.
    cbn [num_segments seg_i seg_j power_avg rate].
    assert (Hslice : length (py_slice rates (seg_i st) (seg_j st))
                     = Z.to_nat n_bins).
    { rewrite py_slice_length by lia. f_equal. lia. }
    repeat split; try lia.
    + rewrite length_map, length_combine, fft_power_length, length_map.
      rewrite Hslice, Hlen. lia.
    + destruct (Z.eqb_spec (num_segments st + 1) 0); [lia |].
      do 2 f_equal. lia.
  - intros H. injection H as <-. auto.
Qed.

End SegmentInvariant.

(** X10.  For a positive [n_bins] the loop ends within as many iterations as
    there are rows.  It has then walked [(rows - 1) // n_bins] windows, window
    number [k] being the rows [[k * n_bins, (k+1) * n_bins)]; it leaves
    between 1 and [n_bins] trailing rows unused; [power_avg] still holds
    [n_bins] values and [rate] is the last window walked, if any. *)
Theorem segment_loop_final (fft_power : list Q -> list Q) (rates : list Q)
    (n_bins : Z) (fuel : nat) :
  (forall l, length (fft_power l) = length l) ->
  0 < n_bins -> (length rates <= fuel)%nat ->
  exists st,
    segment_loop fft_power rates n_bins fuel (segment_init n_bins) = Ok st /\
    num_segments st = Z.max 0 ((Z.of_nat (length rates) - 1) / n_bins) /\
    seg_i st = num_segments st * n_bins /\
    seg_j st = seg_i st + n_bins /\
    (1 <= Z.of_nat (length rates) ->
     1 <= Z.of_nat (length rates) - seg_i st <= n_bins) /\
    length (power_avg st) = Z.to_nat n_bins /\
    rate st = (if num_segments st =? 0 then None
               else Some (py_slice rates (seg_i st - n_bins) (seg_i st))) /\
    length (py_slice rates (seg_i st - n_bins) (seg_i st))
      = (if num_segments st =? 0 then 0%nat else Z.to_nat n_bins).
Proof.
  intros Hfft Hn Hfuel.
  set (len := Z.of_nat (length rates)).
  assert (Hq : (len - 1) / n_bins <= len).
  { destruct (Z.le_gt_cases len 0) as [H0 | H0].
    - assert ((len - 1) / n_bins < 0)
        by (apply Z.div_lt_upper_bound; lia). lia.
    - assert ((len - 1) / n_bins <= len - 1)
        by (apply Z.div_le_upper_bound; nia). lia. }
  destruct (segment_loop_count fft_power rates n_bins Hn fuel
              (segment_init n_bins)) as (st & Hloop & Hnum).
  { unfold windows_left. cbn [segment_init seg_j]. fold len.
    replace (len - n_bins + n_bins - 1) with (len - 1) by lia. lia. }
  unfold windows_left in Hnum. cbn [segment_init seg_j num_segments] in Hnum.
  fold len in Hnum.
  replace (len - n_bins + n_bins - 1) with (len - 1) in Hnum by lia.
  destruct (segment_loop_invariant fft_power Hfft rates n_bins Hn fuel
              _ _ (segment_invariant_init rates n_bins) Hloop)
    as ((Hpos & Hi & Hj & Hin & Hlen & Hrate) & Hexit).
  fold len in Hin, Hexit.
  exists st. repeat split; auto; try lia.
  destruct (Z.eqb_spec (num_segments st) 0) as [H0 | H0].
  - rewrite Hi, H0. unfold py_slice, clip_index.
    rewrite length_firstn, length_skipn.
    destruct (Z.ltb_spec (0 * n_bins - n_bins) 0); [| lia].
    cbn [Z.mul Z.ltb Z.compare]. lia.
  - rewrite py_slice_length by (fold len; nia). f_equal. lia.
Qed.

Lemma segment_loop_final_witness :
  (forall l : list Q, length ((fun x => x) l) = length l) /\
  0 < 4 /\ (9 <= 9)%nat /\
  exists st,
    segment_loop (fun x => x) [1; 2; 3; 4; 5; 6; 7; 8; 9]%Q 4 9
      (segment_init 4) = Ok st /\
    num_segments st = 2.
Proof.
  assert (H1 : forall l : list Q, length ((fun x => x) l) = length l)
    by reflexivity.
  assert (H2 : 0 < 4) by lia.
  assert (H3 : (length [1; 2; 3; 4; 5; 6; 7; 8; 9]%Q <= 9)%nat) by (cbn; lia).
  split; [exact H1 |]. split; [exact H2 |]. split; [cbn in H3; exact H3 |].
  destruct (segment_loop_final (fun x => x) [1; 2; 3; 4; 5; 6; 7; 8; 9]%Q
              4 9 H1 H2 H3) as (st & Hloop & Hnum & _).
  exists st. split; [exact Hloop | exact Hnum].
Defined.

(** ** [main] from the checks to the call of [output] *)


Section MainRuns.

Variable math_sqrt : Q -> Q.
Variable fft_power : list Q -> list Q.
Hypothesis fft_power_length : forall l, length (fft_power l) = length l.

Variable fuel : nat.
Variable fits_data : list (Q * Q).
Variable num_seconds : Z.
Variable rebin_const : Q.

Local Abbreviation dt :=
  (fst (nth 1 fits_data (0, 0)) - fst (nth 0 fits_data (0, 0)))%Q.
Local Abbreviation inv := (py_int (1 / dt)).
Local Abbreviation n_bins := (num_seconds * inv).
Local Abbreviation rows := (Z.of_nat (length fits_data)).
Local Abbreviation kept := ((n_bins - 1) / 2 + 1).

Hypothesis checks_pass : idiot_checks num_seconds rebin_const = Ok tt.
Hypothesis dt_nonzero : ~ (dt == 0)%Q.
Hypothesis inv_pos : 0 < inv.
Hypothesis enough_rows : n_bins < rows.
Hypothesis enough_fuel : (length fits_data <= fuel)%nat.


End MainRuns.






(** ** output *)

Lemma getitem_nth_Z {A : Type} (l : list A) (k : Z) (d : A) :
  0 <= k < Z.of_nat (length l) -> getitem l k = Ok (nth (Z.to_nat k) l d).
Proof.
  intros Hk. rewrite <- (Z2Nat.id k) at 1 by lia.
  apply getitem_nth. lia.
Qed.

Lemma write_rows_spec (freq power err : list Q) :
  (length freq <= length power)%nat -> (length freq <= length err)%nat ->
  forall ks file,
    (forall k, In k ks -> 0 <= k < Z.of_nat (length freq)) ->
    write_rows freq power err ks file
    = (file ++ rows_of freq power err
                 (filter (fun k => Qle_bool 0 (nth (Z.to_nat k) freq 0%Q)) ks),
       Ok tt).
Proof.
  intros Hp He. induction ks as [| k ks IH]; intros file Hks.
  - cbn. now rewrite app_nil_r.
  - assert (Hk : 0 <= k < Z.of_nat (length freq)) by (apply Hks; now left).
    cbn [write_rows filter]. unfold table_row.
    rewrite (getitem_nth_Z freq k 0%Q) by lia. cbn [bind].
    destruct (Qle_bool 0 (nth (Z.to_nat k) freq 0%Q)).
    + rewrite (getitem_nth_Z power k 0%Q), (getitem_nth_Z err k 0%Q) by lia.
      cbn [bind]. rewrite IH by (intros k' Hk'; apply Hks; now right).
      unfold rows_of. cbn [map]. now rewrite <- app_assoc.
    + apply IH. intros k' Hk'. apply Hks. now right.
Qed.

(** X12.  When the power and error columns are at least as long as the
    frequency column, a table is written without error and holds, in order,
    exactly the rows [k] with [freq[k] >= 0]: no row has a negative
    frequency, and when no frequency is negative every bin has its row. *)
Theorem write_table_rows (freq power err : list Q) :
  (length freq <= length power)%nat -> (length freq <= length err)%nat ->
  let bins := py_range 0 (Z.of_nat (length freq)) in
  let written :=
    filter (fun k => Qle_bool 0 (nth (Z.to_nat k) freq 0%Q)) bins in
  write_table freq power err = (rows_of freq power err written, Ok tt) /\
  Forall (fun r => (0 <= fst (fst r))%Q) (rows_of freq power err written) /\
  (Forall (fun x => (0 <= x)%Q) freq -> written = bins).
Proof.
  intros Hp He bins written. repeat split.
  - unfold write_table. rewrite write_rows_spec; auto.
    intros k Hk. apply py_range_In in Hk. lia.
  - apply Forall_forall. intros r Hr. unfold rows_of in Hr.
    apply in_map_iff in Hr. destruct Hr as (k & <- & Hk).
    apply filter_In in Hk. destruct Hk as (_ & Hk).
    cbn [fst]. now apply Qle_bool_iff.
  - intros Hall. subst written. apply forallb_filter_id.
    apply forallb_forall. intros k Hk. apply py_range_In in Hk.
    apply Qle_bool_iff. rewrite Forall_forall in Hall.
    apply Hall, nth_In. lia.
Qed.

Lemma write_table_rows_witness :
  (length [0; 1 # 4; -1 # 2; -1 # 4]%Q <= length [5; 6; 7; 8]%Q)%nat /\
  write_table [0; 1 # 4; -1 # 2; -1 # 4]%Q [5; 6; 7; 8]%Q [1; 1; 1; 1]%Q
  = ([(0, 5, 1); (1 # 4, 6, 1)]%Q, Ok tt).
Proof.
  assert (H : (length [0; 1 # 4; -1 # 2; -1 # 4]%Q
               <= length [5; 6; 7; 8]%Q)%nat) by (cbn; lia).
  split; [exact H |].
  exact (proj1 (write_table_rows [0; 1 # 4; -1 # 2; -1 # 4]%Q [5; 6; 7; 8]%Q
                  [1; 1; 1; 1]%Q H H)).
Defined.





(** ** The periodogram of one segment, continued *)

Module PeriodogramMore.

Import Periodogram.
Local Open Scope R_scope.

Lemma Rsum_add (a : R) (l : list R) :
  Rsum (map (fun x => x + a) l) = Rsum l + INR (length l) * a.
Proof.
  induction l as [| x l IH].
  - cbn. ring.
  - cbn [map Rsum fold_right length]. fold (Rsum (map (fun x => x + a) l)).
    fold (Rsum l). rewrite IH, S_INR. ring.
Qed.

Lemma rate_sub_mean_shift (a : R) (rate : list R) :
  rate <> [] ->
  rate_sub_mean (map (fun x => x + a) rate) = rate_sub_mean rate.
Proof.
  intros Hne. unfold rate_sub_mean, np_mean.
  rewrite map_map, length_map, Rsum_add.
  apply map_ext. intros x.
  assert (Hlen : INR (length rate) <> 0).
  { apply not_0_INR. destruct rate; [contradiction | discriminate]. }
  field. exact Hlen.
Qed.

Lemma Rsum_zeros_in {A : Type} (g : A -> R) (l : list A) :
  (forall a, In a l -> g a = 0) -> Rsum (map g l) = 0.
Proof.
  induction l as [| a l IH]; intros Hg; [reflexivity |].
  cbn [map Rsum fold_right]. fold (Rsum (map g l)).
  rewrite IH by (intros b Hb; apply Hg; now right).
  rewrite (Hg a) by now left. ring.
Qed.

Lemma fft_bin_zeros (n k : nat) : fft_bin (repeat 0 n) k = (0, 0).
Proof.
  unfold fft_bin. f_equal; apply Rsum_zeros_in; intros [j x] Hin;
    apply in_combine_r, repeat_spec in Hin; subst x; cbn [fst snd]; ring.
Qed.

Lemma power_of_zero_bin : absolute (0, 0) ^ 2 = 0.
Proof.
  unfold absolute. cbn [fst snd].
  rewrite Rmult_0_l, Rplus_0_l, sqrt_0. ring.
Qed.

End PeriodogramMore.

(** X14.  Adding a constant to every rate of a segment leaves its
    periodogram unchanged: the mean is subtracted before the transform. *)
Theorem periodogram_shift_invariant (a : R) (rate : list R) :
  Periodogram.power_segment (map (fun x => (x + a)%R) rate)
  = Periodogram.power_segment rate.
Proof.
  destruct rate as [| r rate]; [reflexivity |].
  unfold Periodogram.power_segment.
  now rewrite PeriodogramMore.rate_sub_mean_shift by discriminate.
Qed.

(** X15.  The periodogram of a constant segment is zero in every bin. *)
Theorem periodogram_of_constant (c : R) (n : nat) :
  Periodogram.power_segment (repeat c n) = repeat 0%R n.
Proof.
  unfold Periodogram.power_segment.
  assert (Hsub : Periodogram.rate_sub_mean (repeat c n) = repeat 0%R n).
  { destruct n as [| n]; [reflexivity |].
    unfold Periodogram.rate_sub_mean. rewrite map_repeat. f_equal.
    unfold Periodogram.np_mean. rewrite repeat_length.
    assert (Hsum : forall m, Periodogram.Rsum (repeat c m) = (INR m * c)%R).
    { induction m as [| m IH]; [cbn; ring |].
      cbn [repeat Periodogram.Rsum fold_right].
      fold (Periodogram.Rsum (repeat c m)). rewrite IH, S_INR. ring. }
    rewrite Hsum. field. apply not_0_INR. discriminate. }
  rewrite Hsub. unfold Periodogram.fft. rewrite repeat_length, map_map.
  rewrite (map_ext _ (fun _ => 0%R)).
  - clear Hsub. generalize 0%nat. induction n as [| n IH]; intros start.
    + reflexivity.
    + cbn [seq map repeat]. f_equal. apply IH.
  - intros k. rewrite PeriodogramMore.fft_bin_zeros.
    apply PeriodogramMore.power_of_zero_bin.
Qed.

(** X16.  The periodogram of a segment has as many values as the segment
    has rates, none of them negative. *)
Theorem periodogram_shape (rate : list R) :
  length (Periodogram.power_segment rate) = length rate /\
  Forall (fun p => (0 <= p)%R) (Periodogram.power_segment rate).
Proof.
  unfold Periodogram.power_segment, Periodogram.fft,
    Periodogram.rate_sub_mean.
  split.
  - rewrite !length_map, length_seq. now rewrite ?length_map.
  - apply Forall_forall. intros p Hp. apply in_map_iff in Hp.
    destruct Hp as (z & <- & _). apply pow2_ge_0.
Qed.

(** ** The mean rate *)









(** ** The widths of the groups *)

Lemma py_round_comp (x y : Q) : (x == y)%Q -> py_round x = py_round y.
Proof.
  intros H. unfold py_round.
  assert (Hb : Qle_bool 0 x = Qle_bool 0 y).
  { destruct (Qle_bool 0 x) eqn:Ex, (Qle_bool 0 y) eqn:Ey; try reflexivity.
    - apply Qle_bool_iff in Ex. rewrite H in Ex.
      apply Qle_bool_iff in Ex. congruence.
    - apply Qle_bool_iff in Ey. rewrite <- H in Ey.
      apply Qle_bool_iff in Ey. congruence. }
  rewrite Hb. destruct (Qle_bool 0 y); now rewrite H.
Qed.

Lemma Forall2_seq_shift {A : Type} (P : nat -> A -> Prop) (n : nat) :
  forall a l,
    Forall2 (fun k g => P (S k) g) (seq a n) l ->
    Forall2 P (seq (S a) n) l.
Proof.
  induction n as [| n IH]; intros a l H; cbn [seq] in *;
    inversion H; subst; constructor; auto.
Qed.

Lemma trace_widths (c : Q) (L : Z) (fuel : nat) : forall real cur prev j,
  ~ (c == 0)%Q -> 0 <= j ->
  (real == c ^ j)%Q -> cur - prev = py_round (c ^ j) ->
  Forall2 (fun k g => snd g - fst g = py_round (c ^ (j + Z.of_nat k)))
    (seq 0 (length (group_trace c L fuel real cur prev)))
    (group_trace c L fuel real cur prev).
Proof.
  induction fuel as [| fuel IH]; intros real cur prev j Hc Hj Hreal Hwidth;
    cbn [group_trace]; destruct (cur <? L); try constructor.
  - cbn [fst snd Z.of_nat]. now rewrite Z.add_0_r.
  - cbn [length]. apply Forall2_seq_shift.
    assert (Hnext : (real * c == c ^ (j + 1))%Q).
    { rewrite Qpower_plus by exact Hc. rewrite Hreal.
      change (c ^ 1)%Q with c. reflexivity. }
    specialize (IH (real * c)%Q (cur + py_round (real * c)) cur (j + 1)
                   Hc ltac:(lia) Hnext).
    rewrite (py_round_comp _ _ Hnext) in IH at 1.
    specialize (IH ltac:(lia)).
    eapply Forall2_impl; [| exact IH].
    intros k g Hg. cbn beta. rewrite Hg. do 2 f_equal. lia.
Qed.

(** X18.  The groups widen geometrically: for a constant of at least 1,
    group number [k] (from 0) spans [round(rebin_const ^ k)] bins. *)
Theorem group_widths_geometric (c : Q) (L : Z) (fuel : nat) :
  (1 <= c)%Q ->
  Forall2 (fun k g => snd g - fst g = py_round (c ^ Z.of_nat k))
    (seq 0 (length (rebin_groups c L fuel))) (rebin_groups c L fuel).
Proof.
  intros Hc.
  assert (Hnz : ~ (c == 0)%Q).
  { intros H0. apply (Qle_not_lt _ _ Hc). rewrite H0. reflexivity. }
  apply (trace_widths c L fuel 1%Q 1 0 0 Hnz (Z.le_refl 0)); reflexivity.
Qed.

Lemma group_widths_geometric_witness :
  (1 <= 2)%Q /\
  Forall2 (fun k g => snd g - fst g = py_round (2 ^ Z.of_nat k))
    (seq 0 (length (rebin_groups 2 20 20))) (rebin_groups 2 20 20).
Proof.
  assert (H : (1 <= 2)%Q) by (unfold Qle; cbn; lia).
  split; [exact H | exact (group_widths_geometric 2 20 20 H)].
Defined.

(** ** What [main] does with a table it cannot use *)

(** X19.  Once the checks have passed, a table of fewer than two rows stops
    [main] with [IndexError], and two first rows with the same time stamp
    stop it with [OverflowError] ([int] of an infinite [1.0 / dt]); in both
    cases before any segment is cut. *)
Theorem main_unusable_table (math_sqrt : Q -> Q) (fft_power : list Q -> list Q)
    (fuel : nat) (fits_data : list (Q * Q)) (num_seconds : Z)
    (rebin_const : Q) :
  idiot_checks num_seconds rebin_const = Ok tt ->
  ((length fits_data < 2)%nat ->
   main math_sqrt fft_power fuel fits_data num_seconds rebin_const
   = Raise IndexError) /\
  ((2 <= length fits_data)%nat ->
   (fst (nth 1 fits_data (0, 0)) == fst (nth 0 fits_data (0, 0)))%Q ->
   main math_sqrt fft_power fuel fits_data num_seconds rebin_const
   = Raise OverflowError).
Proof.
  intros Hchecks. split.
  - intros Hshort. unfold main. rewrite Hchecks. cbn [bind].
    assert (G1 : getitem fits_data 1 = Raise IndexError).
    { unfold getitem. cbn [Z.ltb Z.compare Z.leb andb].
      destruct (Z.ltb_spec 1 (Z.of_nat (length fits_data))); [lia |].
      reflexivity. }
    now rewrite G1.
  - intros Hrows Hsame. unfold main. rewrite Hchecks. cbn [bind].
    assert (G1 : getitem fits_data 1 = Ok (nth 1 fits_data (0, 0)%Q))
      by (apply (getitem_nth fits_data 1); lia).
    assert (G0 : getitem fits_data 0 = Ok (nth 0 fits_data (0, 0)%Q))
      by (apply (getitem_nth fits_data 0); lia).
    rewrite G1. cbn [bind]. rewrite G0. cbn [bind].
    unfold int_inverse.
    assert (E : Qeq_bool (fst (nth 1 fits_data (0, 0)%Q)
                          - fst (nth 0 fits_data (0, 0)%Q)) 0 = true).
    { apply Qeq_bool_iff. rewrite Hsame. ring. }
    now rewrite E.
Qed.

Lemma main_unusable_table_witness :
  idiot_checks 4 (3 # 2) = Ok tt /\
  (length [(0, 1)]%Q < 2)%nat /\
  main exact_sqrt (fun x => x) 5 [(0, 1)]%Q 4 (3 # 2) = Raise IndexError.
Proof.
  assert (H1 : idiot_checks 4 (3 # 2) = Ok tt) by reflexivity.
  assert (H2 : (length [(0, 1)]%Q < 2)%nat) by (cbn; lia).
  split; [exact H1 |]. split; [exact H2 |].
  exact (proj1 (main_unusable_table exact_sqrt (fun x => x) 5 [(0, 1)]%Q 4
                  (3 # 2) H1) H2).
Defined.
